(** * rotate_keys.py: rotation of an IAM user's access keys

    A shallow embedding of [rotate_keys.py].  The script is one linear
    workflow that talks to three outside parties: AWS (STS and IAM, through
    boto3), the GitHub REST API (through requests) and the file system (the
    [GITHUB_OUTPUT] file).  Every interaction is recorded as an [event] of a
    trace, and the answers of the outside parties are given by a [World].
    The script has no [try]/[except]: an exception raised by a library call,
    a failed lookup or an explicit [raise] ends the run, and so does
    [sys.exit]. *)

From Stdlib Require Import ZArith Ascii.
From stdpp Require Import base strings list gmap pretty.

Local Open Scope string_scope.
Local Open Scope list_scope.

(** ** Python strings

    A [str] is modelled as a Rocq [string] whose characters are the code
    points below 256. *)

Module PyStr.

(** [s.split(sep)] for a one-character separator: never the empty list. *)
Fixpoint split (sep : ascii) (s : string) : list string :=
  match s with
  | EmptyString => [EmptyString]
  | String c s' =>
      if Ascii.eqb c sep then EmptyString :: split sep s'
      else match split sep s' with
           | [] => [String c EmptyString]
           | w :: ws => String c w :: ws
           end
  end.

(** [str.isspace] on one character: TAB..CR, FS..US, space, NEL, NBSP. *)
Definition isspace (c : ascii) : bool :=
  let n := nat_of_ascii c in
  ((9 <=? n) && (n <=? 13) || (28 <=? n) && (n <=? 32)
   || (n =? 133) || (n =? 160))%nat.

Fixpoint lstrip (s : string) : string :=
  match s with
  | EmptyString => EmptyString
  | String c s' => if isspace c then lstrip s' else s
  end.

Fixpoint rstrip (s : string) : string :=
  match s with
  | EmptyString => EmptyString
  | String c s' =>
      match rstrip s' with
      | EmptyString => if isspace c then EmptyString else String c EmptyString
      | r => String c r
      end
  end.

(** [s.strip()] *)
Definition strip (s : string) : string := rstrip (lstrip s).

(** [needle in hay] on strings: substring containment. *)
Fixpoint contains (needle hay : string) : bool :=
  String.prefix needle hay ||
  match hay with
  | EmptyString => false
  | String _ hay' => contains needle hay'
  end.

(** A non-empty string is truthy. *)
Definition truthy (s : string) : bool :=
  match s with EmptyString => false | _ => true end.

End PyStr.

(** ** Data exchanged with the libraries *)

(** What a library call raises: the exception class and its message. *)
Record lib_error := LibError { err_class : string; err_message : string }.

(** Exceptions of a run.  None is ever caught. *)
Inductive exn :=
| KeyError (key : string)
| IndexError (msg : string)
| Exception (msg : string)
| LibraryError (e : lib_error).

(** How a run of the script ends. *)
Inductive outcome :=
| Exited (code : Z)          (* [sys.exit(code)] *)
| Uncaught (e : exn).        (* traceback on stderr *)

(** The status the interpreter hands to the operating system. *)
Definition exit_status (o : outcome) : Z :=
  match o with
  | Exited code => code
  | Uncaught _ => 1
  end.

(** [sts.get_caller_identity()] *)
Record CallerIdentity := { Arn : string }.

(** One element of [list_access_keys(...)["AccessKeyMetadata"]]. *)
Record AccessKeyMetadata := { AccessKeyId : string; Status : string }.

(** [create_access_key(...)['AccessKey']], with its fields ['AccessKeyId']
    and ['SecretAccessKey']. *)
Record AccessKey := { NewAccessKeyId : string; SecretAccessKey : string }.

(** A [requests] response: [status_code], [text] and what [.json()] gives
    (an object with string fields, or the error it raises). *)
Record Response := {
  status_code : Z;
  text : string;
  json : lib_error + gmap string string
}.

(** The [json=] body of the upload. *)
Record SecretPayload := {
  encrypted_value : string;
  key_id : string;
  visibility : string
}.

(** ** The outside world

    Each field answers one kind of call; the first argument is the number of
    events that happened before the call, so that the same request may get
    different answers at different times.  An answer is the returned value or
    the error the library raises. *)
Record World := {
  on_get_caller_identity : nat -> lib_error + CallerIdentity;
  on_list_access_keys : nat -> string -> lib_error + list AccessKeyMetadata;
  on_create_access_key : nat -> string -> lib_error + AccessKey;
  on_delete_access_key : nat -> string -> string -> lib_error + Z;
  on_requests_get : nat -> string -> string -> lib_error + Response;
  on_requests_put :
    nat -> string -> SecretPayload -> string -> lib_error + Response;
  on_sealed_box : nat -> string -> string -> lib_error + string;
  on_open_append : nat -> string -> lib_error + unit
}.

(** What the run did, in order. *)
Inductive event :=
| StsGetCallerIdentity (r : lib_error + CallerIdentity)
| IamListAccessKeys (user : string) (r : lib_error + list AccessKeyMetadata)
| IamCreateAccessKey (user : string) (r : lib_error + AccessKey)
| IamDeleteAccessKey (user id : string) (r : lib_error + Z)
| RequestsGet (url auth : string) (r : lib_error + Response)
| RequestsPut (url : string) (body : SecretPayload) (auth : string)
    (r : lib_error + Response)
| SealedBoxEncrypt (public_key plaintext : string) (r : lib_error + string)
| OpenAppend (path : string) (r : lib_error + unit)
| FilePrint (path line : string)
| Stdout (line : string).

(** ** The monad of the script: a trace writer with early termination *)

Inductive res (A : Type) :=
| Ret (a : A)
| Halt (o : outcome).
Arguments Ret {A} a.
Arguments Halt {A} o.

(** A computation started after [n] events gives a result and the events it
    added. *)
Definition M (A : Type) : Type := nat -> res A * list event.

Definition ret {A} (a : A) : M A := fun _ => (Ret a, []).

Definition bind {A B} (m : M A) (f : A -> M B) : M B :=
  fun n =>
    match m n with
    | (Ret a, t) =>
        match f a (n + length t)%nat with
        | (r, t') => (r, t ++ t')
        end
    | (Halt o, t) => (Halt o, t)
    end.

Notation "x <- m ;; k" := (bind m (fun x => k))
  (at level 100, m at next level, right associativity).
Notation "m ;;; k" := (bind m (fun _ => k))
  (at level 100, right associativity).

Definition raise {A} (e : exn) : M A := fun _ => (Halt (Uncaught e), []).

(** [sys.exit(code)] *)
Definition sys_exit {A} (code : Z) : M A := fun _ => (Halt (Exited code), []).

(** [print(line)] *)
Definition print (line : string) : M unit := fun _ => (Ret tt, [Stdout line]).

(** [print(line, file=fh)] for [fh] opened from [path]. *)
Definition fprint (path line : string) : M unit :=
  fun _ => (Ret tt, [FilePrint path line]).

(** A library call: ask the world, record the call with its answer, and
    raise when the library does. *)
Definition call {X} (ask : nat -> lib_error + X)
    (record : lib_error + X -> event) : M X :=
  fun n =>
    match ask n with
    | inl e => (Halt (Uncaught (LibraryError e)), [record (inl e)])
    | inr x => (Ret x, [record (inr x)])
    end.

(** [l[i]] on a list, negative indices counting from the end. *)
Definition getitem {A} (l : list A) (i : Z) : M A :=
  let j := (if i <? 0 then i + Z.of_nat (length l) else i)%Z in
  if (j <? 0)%Z then raise (IndexError "list index out of range")
  else match l !! Z.to_nat j with
       | Some x => ret x
       | None => raise (IndexError "list index out of range")
       end.

(** [d[k]] on a dict with string keys. *)
Definition dict_getitem (d : gmap string string) (k : string) : M string :=
  match d !! k with
  | Some v => ret v
  | None => raise (KeyError k)
  end.

(** [for x in l: body(x)] *)
Fixpoint for_each {A} (l : list A) (body : A -> M unit) : M unit :=
  match l with
  | [] => ret tt
  | x :: l' => body x ;;; for_each l' body
  end.

(** ** The script *)

(** The module-level names set before [main_function] runs. *)
Record Globals := {
  access_key_name : string;
  secret_key_name : string
}.

Section Script.

Variable world : World.
Variable environ : gmap string string.

(** [os.environ[k]] *)
Definition os_environ_getitem (k : string) : M string :=
  dict_getitem environ k.

Definition sts_get_caller_identity : M CallerIdentity :=
  call (on_get_caller_identity world) StsGetCallerIdentity.

Definition iam_list_access_keys (UserName : string)
  : M (list AccessKeyMetadata) :=
  call (fun n => on_list_access_keys world n UserName)
       (IamListAccessKeys UserName).

Definition iam_create_access_key (UserName : string) : M AccessKey :=
  call (fun n => on_create_access_key world n UserName)
       (IamCreateAccessKey UserName).

Definition iam_delete_access_key (UserName Id : string) : M Z :=
  call (fun n => on_delete_access_key world n UserName Id)
       (IamDeleteAccessKey UserName Id).

Definition requests_get (url auth : string) : M Response :=
  call (fun n => on_requests_get world n url auth) (RequestsGet url auth).

Definition requests_put (url : string) (body : SecretPayload)
    (auth : string) : M Response :=
  call (fun n => on_requests_put world n url body auth)
       (RequestsPut url body auth).

Definition open_append (path : string) : M unit :=
  call (fun n => on_open_append world n path) (OpenAppend path).

(** [boto3.client(service, aws_access_key_id=os.environ[...],
    aws_secret_access_key=os.environ[...],
    aws_session_token=os.environ.get(...))]: the two subscripts may raise;
    building the client itself talks to nobody. *)
Definition boto3_client (service : string) : M unit :=
  _ <- os_environ_getitem "AWS_ACCESS_KEY_ID" ;;
  _ <- os_environ_getitem "AWS_SECRET_ACCESS_KEY" ;;
  ret tt.

(** [who_am_i()] *)
Definition who_am_i : M string :=
  boto3_client "sts" ;;;
  user <- sts_get_caller_identity ;;
  getitem (PyStr.split "/" (Arn user)) (-1).

(** [create_new_keys(iam_username)] *)
Definition create_new_keys (iam_username : string) : M (string * string) :=
  create_ret <- iam_create_access_key iam_username ;;
  let new_access_key := NewAccessKeyId create_ret in
  let new_secret_key := SecretAccessKey create_ret in
  second_list_ret <- iam_list_access_keys iam_username ;;
  let access_keys := AccessKeyId <$> second_list_ret in
  if negb (bool_decide (new_access_key ∈ access_keys)) then
    print "new keys failed to generate." ;;;
    sys_exit 1
  else
    print "new keys generated, proceeding" ;;;
    ret (new_access_key, new_secret_key).

(** [delete_old_keys(iam_username, current_access_id)]; the answer of the
    call is its [['ResponseMetadata']['HTTPStatusCode']]. *)
Definition delete_old_keys (iam_username current_access_id : string)
  : M unit :=
  delete_ret <- iam_delete_access_key iam_username current_access_id ;;
  if negb (delete_ret =? 200)%Z then
    print "deletion of original key failed" ;;;
    sys_exit 1
  else ret tt.

(** [encrypt(public_key, secret_value)]: the sealed box of PyNaCl, base64
    in and out, is one opaque call; it draws fresh randomness and it raises
    on a malformed key. *)
Definition encrypt (public_key secret_value : string) : M string :=
  call (fun n => on_sealed_box world n public_key secret_value)
       (SealedBoxEncrypt public_key secret_value).

Definition spaces (n : nat) : string :=
  String.string_of_list_ascii (replicate n " "%char).

(** The message of the exception of [get_pub_key] and [upload_secret]: the
    backslash at the end of a source line continues the literal, so the
    indentation of the next line is part of the message. *)
Definition failure_message (what : string) (r : Response)
    (owner_repo github_token : string) : string :=
  what +:+ " request failed, " +:+ spaces 26 +:+
  "status code: " +:+ pretty (status_code r) +:+ ", " +:+ spaces 26 +:+
  "body: " +:+ text r +:+ ", " +:+ spaces 26 +:+
  "vars: " +:+ owner_repo +:+ " " +:+ github_token +:+ " " +:+ spaces 24.

Definition endpoint_path (owner_repo : string) : string :=
  if PyStr.contains "/" owner_repo then "repos" else "orgs".

Definition bearer (github_token : string) : string :=
  "Bearer " +:+ github_token.

(** The value of [endpoint] when [get_pub_key] calls [requests.get]: the
    walrus test takes the environment branch when the variable is set and
    not empty. *)
Definition public_key_endpoint (owner_repo : string) : string :=
  let endpoint_path := endpoint_path owner_repo in
  let endpoint :=
    "https://api.github.com/" +:+ endpoint_path +:+ "/" +:+ owner_repo
      +:+ "/actions/secrets/public-key" in
  match environ !! "GITHUB_ENVIRONMENT" with
  | Some environment_name =>
      if PyStr.truthy environment_name then
        "https://api.github.com/" +:+ endpoint_path +:+ "/" +:+ owner_repo
          +:+ "/environments/" +:+ environment_name
          +:+ "/secrets/public-key"
      else endpoint
  | None => endpoint
  end.

(** The value of [endpoint] when [upload_secret] calls [requests.put]. *)
Definition secret_endpoint (owner_repo key_name : string) : string :=
  let endpoint_path := endpoint_path owner_repo in
  let endpoint :=
    "https://api.github.com/" +:+ endpoint_path +:+ "/" +:+ owner_repo
      +:+ "/actions/secrets/" +:+ key_name in
  match environ !! "GITHUB_ENVIRONMENT" with
  | Some environment_name =>
      if PyStr.truthy environment_name then
        "https://api.github.com/" +:+ endpoint_path +:+ "/" +:+ owner_repo
          +:+ "/environments/" +:+ environment_name
          +:+ "/secrets/" +:+ key_name
      else endpoint
  | None => endpoint
  end.

(** The confirmation line of [upload_secret]. *)
Definition updated_line (owner_repo key_name : string) : string :=
  match environ !! "GITHUB_ENVIRONMENT" with
  | Some environment_name =>
      if PyStr.truthy environment_name then
        "Updated: " +:+ key_name +:+ " in " +:+ owner_repo
          +:+ " for " +:+ environment_name
      else "Updated: " +:+ key_name +:+ " in " +:+ owner_repo
  | None => "Updated: " +:+ key_name +:+ " in " +:+ owner_repo
  end.

(** [get_pub_key(owner_repo, github_token)].  The [sys.exit(1)] that follows
    the [raise] in the source is never reached. *)
Definition get_pub_key (owner_repo github_token : string)
  : M (string * string) :=
  let endpoint := public_key_endpoint owner_repo in
  pub_key_ret <- requests_get endpoint (bearer github_token) ;;
  if negb (status_code pub_key_ret =? 200)%Z then
    raise (Exception (failure_message "github public key" pub_key_ret
                        owner_repo github_token))
  else
    public_key_info <-
      match json pub_key_ret with
      | inl e => raise (LibraryError e)
      | inr o => ret o
      end ;;
    public_key <- dict_getitem public_key_info "key" ;;
    public_key_id <- dict_getitem public_key_info "key_id" ;;
    ret (public_key, public_key_id).

(** [upload_secret(owner_repo, key_name, encrypted_value, pub_key_id,
    github_token)].  Here too the [sys.exit(1)] after the [raise] is never
    reached. *)
Definition upload_secret
    (owner_repo key_name encrypted_value pub_key_id github_token : string)
  : M unit :=
  let endpoint := secret_endpoint owner_repo key_name in
  updated_secret <-
    requests_put endpoint
      {| encrypted_value := encrypted_value;
         key_id := pub_key_id;
         visibility := "private" |}
      (bearer github_token) ;;
  let good_status_codes := [204; 201]%Z in
  if negb (bool_decide (status_code updated_secret ∈ good_status_codes)) then
    raise (Exception (failure_message "upload secret" updated_secret
                        owner_repo github_token))
  else print (updated_line owner_repo key_name).

(** The body of the [for repos in ...] loop of [main_function]. *)
Definition main_loop_body (g : Globals)
    (github_token new_access_key new_secret_key repos : string) : M unit :=
  pub_key <- get_pub_key repos github_token ;;
  let '(public_key, pub_key_id) := pub_key in
  encrypted_access_key <- encrypt public_key new_access_key ;;
  encrypted_secret_key <- encrypt public_key new_secret_key ;;
  upload_secret repos (access_key_name g) encrypted_access_key pub_key_id
    github_token ;;;
  upload_secret repos (secret_key_name g) encrypted_secret_key pub_key_id
    github_token.

(** [[x.strip() for x in owner_repository.split(',')]] *)
Definition targets_of (owner_repository : string) : list string :=
  PyStr.strip <$> PyStr.split "," owner_repository.

(** [main_function()].  The second argument of [os.environ.get] is an
    ordinary argument: [who_am_i()] is evaluated before the lookup. *)
Definition main_function (g : Globals) : M unit :=
  fallback <- who_am_i ;;
  let iam_username := default fallback (environ !! "IAM_USERNAME") in
  github_token <- os_environ_getitem "PERSONAL_ACCESS_TOKEN" ;;
  owner_repository <- os_environ_getitem "OWNER_REPOSITORY" ;;
  list_ret <- iam_list_access_keys iam_username ;;
  let starting_num_keys := length list_ret in
  if (2 <=? starting_num_keys)%nat then
    print "There are already 2 keys for this user. Cannot rotate tokens." ;;;
    sys_exit 1
  else
    print ("Validated <2 keys exist (current count: "
             +:+ pretty starting_num_keys +:+ "), proceeding.") ;;;
    new_keys <- create_new_keys iam_username ;;
    let '(new_access_key, new_secret_key) := new_keys in
    output <- os_environ_getitem "GITHUB_OUTPUT" ;;
    open_append output ;;;
    fprint output (access_key_name g +:+ "=" +:+ new_access_key) ;;;
    fprint output (secret_key_name g +:+ "=" +:+ new_secret_key) ;;;
    for_each (targets_of owner_repository)
      (main_loop_body g github_token new_access_key new_secret_key) ;;;
    (if (starting_num_keys =? 1)%nat then
       old <- getitem list_ret 0 ;;
       delete_old_keys iam_username (AccessKeyId old)
     else ret tt) ;;;
    sys_exit 0.

(** [access_key_name] and [secret_key_name] as the first lines of the
    module set them: [os.environ.get(name, default)]. *)
Definition module_globals : Globals :=
  {| access_key_name :=
       default "access_key_id" (environ !! "GITHUB_ACCESS_KEY_NAME");
     secret_key_name :=
       default "secret_key_id" (environ !! "GITHUB_SECRET_KEY_NAME") |}.

(** The module, top to bottom: the two names, the IAM client, then
    [main_function()]. *)
Definition script : M unit :=
  let g := module_globals in
  boto3_client "iam" ;;;
  main_function g.

(** A run of the script: how it ended and what it did.  Falling off the
    end of the module is exit status 0. *)
Definition run : outcome * list event :=
  match script 0%nat with
  | (Ret _, t) => (Exited 0, t)
  | (Halt o, t) => (o, t)
  end.

End Script.

(** ** Observations on traces *)

Definition is_create (e : event) : bool :=
  match e with IamCreateAccessKey _ _ => true | _ => false end.

Definition is_delete (e : event) : bool :=
  match e with IamDeleteAccessKey _ _ _ => true | _ => false end.

Definition is_fetch (e : event) : bool :=
  match e with RequestsGet _ _ _ => true | _ => false end.

Definition is_upload (e : event) : bool :=
  match e with RequestsPut _ _ _ _ => true | _ => false end.

Definition is_seal (e : event) : bool :=
  match e with SealedBoxEncrypt _ _ _ => true | _ => false end.

Definition is_file (e : event) : bool :=
  match e with OpenAppend _ _ | FilePrint _ _ => true | _ => false end.

(** A call to the secret store of a propagation target. *)
Definition is_propagation (e : event) : bool := is_fetch e || is_upload e.

(** The events the propagation loop can add. *)
Definition is_loop_event (e : event) : bool :=
  is_fetch e || is_upload e || is_seal e
  || match e with Stdout _ => true | _ => false end.

(** An upload answered with one of [good_status_codes]. *)
Definition is_good_upload (e : event) : bool :=
  match e with
  | RequestsPut _ _ _ (inr r) => bool_decide (status_code r ∈ [204; 201]%Z)
  | _ => false
  end.

Definition good_uploads (t : list event) : nat :=
  length (List.filter is_good_upload t).

(** The answer to the first [list_access_keys] of the run: the credentials
    that existed before anything was created. *)
Fixpoint first_listing (t : list event)
  : option (lib_error + list AccessKeyMetadata) :=
  match t with
  | [] => None
  | IamListAccessKeys _ r :: _ => Some r
  | _ :: t' => first_listing t'
  end.

(** The answer to [create_access_key]. *)
Fixpoint created_key (t : list event) : option (lib_error + AccessKey) :=
  match t with
  | [] => None
  | IamCreateAccessKey _ r :: _ => Some r
  | _ :: t' => created_key t'
  end.

(** The answer to the [list_access_keys] that follows the creation. *)
Fixpoint listing_after_create (t : list event)
  : option (lib_error + list AccessKeyMetadata) :=
  match t with
  | [] => None
  | IamCreateAccessKey _ _ :: t' => first_listing t'
  | _ :: t' => listing_after_create t'
  end.

(** The lines printed to standard output. *)
Definition stdout_of (t : list event) : list string :=
  omap (fun e => match e with Stdout l => Some l | _ => None end) t.

(** The lines appended to files, with the path of each. *)
Definition disk_of (t : list event) : list (string * string) :=
  omap (fun e => match e with FilePrint p l => Some (p, l) | _ => None end) t.

(** The last line of the traceback of an uncaught exception, the only one
    that shows run-time values. *)
Definition traceback_line (e : exn) : string :=
  match e with
  | KeyError k => "KeyError: '" +:+ k +:+ "'"
  | IndexError m => "IndexError: " +:+ m
  | Exception m => "Exception: " +:+ m
  | LibraryError e => err_class e +:+ ": " +:+ err_message e
  end.

Definition stderr_of (o : outcome) : list string :=
  match o with
  | Exited _ => []
  | Uncaught e => [traceback_line e]
  end.

(** Everything the job itself logs: progress lines and error message. *)
Definition log_of (r : outcome * list event) : list string * list string :=
  (stdout_of r.2, stderr_of r.1).

(** The URLs of the requests sent to the secret stores, in order. *)
Definition contacted (t : list event) : list string :=
  omap (fun e => match e with
                 | RequestsGet u _ _ | RequestsPut u _ _ _ => Some u
                 | _ => None
                 end) t.

(** The URLs of the uploads that were accepted, in order. *)
Definition uploaded (t : list event) : list string :=
  omap (fun e => match e with
                 | RequestsPut u _ _ _ =>
                     if is_good_upload e then Some u else None
                 | _ => None
                 end) t.

(** The requests one target gets when nothing fails: the key fetch, then
    the two uploads. *)
Definition target_requests (environ : gmap string string) (g : Globals)
    (repos : string) : list string :=
  [public_key_endpoint environ repos;
   secret_endpoint environ repos (access_key_name g);
   secret_endpoint environ repos (secret_key_name g)].

Definition target_uploads (environ : gmap string string) (g : Globals)
    (repos : string) : list string :=
  [secret_endpoint environ repos (access_key_name g);
   secret_endpoint environ repos (secret_key_name g)].

(** A field of the JSON object a fetch returned, if it returned one. *)
Definition fetched (ans : lib_error + Response) (field : string)
  : option string :=
  match ans with
  | inr resp => match json resp with
                | inr o => o !! field
                | inl _ => None
                end
  | inl _ => None
  end.

(** The sealings of a trace: plaintext and ciphertext. *)
Definition sealings (t : list event) : list (string * string) :=
  omap (fun e => match e with
                 | SealedBoxEncrypt _ p (inr c) => Some (p, c)
                 | _ => None
                 end) t.

(** The uploads of a trace: URL and encrypted value. *)
Definition uploads (t : list event) : list (string * string) :=
  omap (fun e => match e with
                 | RequestsPut u b _ _ => Some (u, encrypted_value b)
                 | _ => None
                 end) t.

(** The response of a request that the script rejects: a fetch not answered
    with 200, an upload answered with neither 201 nor 204. *)
Definition rejected_response (e : event) : option Response :=
  match e with
  | RequestsGet _ _ (inr r) =>
      if (status_code r =? 200)%Z then None else Some r
  | RequestsPut _ _ _ (inr r) =>
      if bool_decide (status_code r ∈ [204; 201]%Z) then None else Some r
  | _ => None
  end.

(** The message shows the status code and the body of the response. *)
Definition carries (msg : string) (r : Response) : Prop :=
  exists a b c,
    msg = a +:+ pretty (status_code r) +:+ b +:+ text r +:+ c.

(** What a computation shows apart from the contents of its calls: the
    result, how many events it added, and the lines it printed. *)
Definition observable {A} (x : res A * list event)
  : res A * nat * list string :=
  (x.1, length x.2, stdout_of x.2).

(** The last segment of [s.split(sep)]. *)
Definition last_segment (sep : ascii) (s : string) : string :=
  default EmptyString (last (PyStr.split sep s)).

(** [blocks body n l t]: started after [n] events, the body completes on
    every element of [l], one after the other, and [t] is what it did. *)
Inductive blocks {A} (body : A -> M unit)
  : nat -> list A -> list event -> Prop :=
| blocks_nil n : blocks body n [] []
| blocks_cons n x l t ts :
    body x n = (Ret tt, t) ->
    blocks body (n + length t) l ts ->
    blocks body n (x :: l) (t ++ ts).

(** The environment-scoped endpoints as the interface description words
    them, with the environment segment put before [/actions/secrets]. *)
Definition stated_environment_endpoint (owner_repo env name : string)
  : string :=
  "https://api.github.com/" +:+ endpoint_path owner_repo +:+ "/"
    +:+ owner_repo +:+ "/environments/" +:+ env +:+ "/actions/secrets/"
    +:+ name.

(** The statement that the new secret never reaches a file. *)
Definition secret_never_on_disk (w : World) (environ : gmap string string)
  : Prop :=
  forall k path line,
    created_key (run w environ).2 = Some (inr k) ->
    (path, line) ∈ disk_of (run w environ).2 ->
    PyStr.contains (SecretAccessKey k) line = false.

(** The world of the run once the provider hands out secret [s] instead. *)
Definition with_secret (s : string) (w : World) : World :=
  {| on_get_caller_identity := on_get_caller_identity w;
     on_list_access_keys := on_list_access_keys w;
     on_create_access_key := fun n user =>
       match on_create_access_key w n user with
       | inl e => inl e
       | inr k => inr {| NewAccessKeyId := NewAccessKeyId k;
                         SecretAccessKey := s |}
       end;
     on_delete_access_key := on_delete_access_key w;
     on_requests_get := on_requests_get w;
     on_requests_put := on_requests_put w;
     on_sealed_box := on_sealed_box w;
     on_open_append := on_open_append w |}.

(** The secret store answers an upload without looking at the ciphertext. *)
Definition upload_blind (w : World) : Prop :=
  forall n url b b' auth,
    key_id b = key_id b' -> visibility b = visibility b' ->
    on_requests_put w n url b auth = on_requests_put w n url b' auth.

(** Whether sealing fails, and how, does not depend on the plaintext. *)
Definition sealing_blind (w : World) : Prop :=
  forall n pk p p',
    sum_map id (fun _ => tt) (on_sealed_box w n pk p)
    = sum_map id (fun _ => tt) (on_sealed_box w n pk p').

(** ** What the claims say about a run *)

(** [retired o t m]: the run deleted credential [m] by its identifier, once,
    after all the accepted uploads, and ended as the answer demands. *)
Definition retired (o : outcome) (t : list event) (m : AccessKeyMetadata)
  : Prop :=
  exists t0 user r tl,
    t = t0 ++ IamDeleteAccessKey user (AccessKeyId m) r :: tl /\
    good_uploads t0 = good_uploads t /\
    Forall (fun e => is_delete e = false) t0 /\
    match r with
    | inr status =>
        if (status =? 200)%Z then o = Exited 0 /\ tl = []
        else o = Exited 1 /\ tl = [Stdout "deletion of original key failed"]
    | inl e => o = Uncaught (LibraryError e) /\ tl = []
    end.

(** [in_order environ g body targets n r t]: what the loop over [targets],
    started after [n] events, did.  When it completes, every target got its
    three requests, in the order of the list.  When it stops with [o], it
    stops inside the body of target number [K] (from 0): the [K] targets
    before it got all their requests and both uploads, target [K] got a
    prefix of its requests, and that is all. *)
Definition in_order (environ : gmap string string) (g : Globals)
    (body : string -> M unit) (targets : list string) (n : nat)
    (r : res unit) (t : list event) : Prop :=
  match r with
  | Ret _ =>
      contacted t = targets ≫= target_requests environ g /\
      uploaded t = targets ≫= target_uploads environ g
  | Halt o =>
      exists K x t1 t2,
        targets !! K = Some x /\
        t = t1 ++ t2 /\
        contacted t1 = take K targets ≫= target_requests environ g /\
        uploaded t1 = take K targets ≫= target_uploads environ g /\
        body x (n + length t1)%nat = (Halt o, t2) /\
        contacted t2 `prefix_of` target_requests environ g x /\
        uploaded t2 `prefix_of`
          [secret_endpoint environ x (access_key_name g)]
  end.

(** [one_key environ g tok ak sk repos r t]: the body of the loop for
    [repos] fetched the public key once, first; whatever it sealed, it
    sealed with the fetched key; whatever it uploaded carries the fetched
    key id; it sealed [ak] then [sk] and uploaded the two ciphertexts in
    that order, all of it when it completed. *)
Definition one_key (environ : gmap string string) (g : Globals)
    (tok ak sk repos : string) (r : res unit) (t : list event) : Prop :=
  exists ans rest,
    t = RequestsGet (public_key_endpoint environ repos) (bearer tok) ans
          :: rest /\
    Forall (fun e => is_fetch e = false) rest /\
    (forall pk p a,
        SealedBoxEncrypt pk p a ∈ t -> fetched ans "key" = Some pk) /\
    (forall u b auth a,
        RequestsPut u b auth a ∈ t ->
        fetched ans "key_id" = Some (key_id b)) /\
    (exists c1 c2,
        sealings t `prefix_of` [(ak, c1); (sk, c2)] /\
        uploads t `prefix_of`
          [(secret_endpoint environ repos (access_key_name g), c1);
           (secret_endpoint environ repos (secret_key_name g), c2)] /\
        (r = Ret tt ->
         sealings t = [(ak, c1); (sk, c2)] /\
         uploads t =
           [(secret_endpoint environ repos (access_key_name g), c1);
            (secret_endpoint environ repos (secret_key_name g), c2)])).

(** [requests_in_order environ g targets c u]: the requests [c] and the
    accepted uploads [u] are those of the first [K] targets, in order and
    complete, then a prefix of those of the next target if there is one. *)
Definition requests_in_order (environ : gmap string string) (g : Globals)
    (targets : list string) (c u : list string) : Prop :=
  exists K rest_c rest_u,
    c = (take K targets ≫= target_requests environ g) ++ rest_c /\
    u = (take K targets ≫= target_uploads environ g) ++ rest_u /\
    match targets !! K with
    | Some x =>
        rest_c `prefix_of` target_requests environ g x /\
        rest_u `prefix_of` [secret_endpoint environ x (access_key_name g)]
    | None => rest_c = [] /\ rest_u = []
    end.

(** ** Example worlds *)

Definition active (id : string) : AccessKeyMetadata :=
  {| AccessKeyId := id; Status := "Active" |}.

Record Scenario := {
  existing : list AccessKeyMetadata;   (* keys before the run *)
  visible : bool;                       (* the new key shows in the re-list *)
  fetch_status : string -> Z;           (* by URL *)
  upload_status : string -> Z;          (* by URL *)
  delete_status : Z
}.

Definition scenario_world (sc : Scenario) : World :=
  {| on_get_caller_identity := fun _ =>
       inr {| Arn := "arn:aws:iam::123456789012:user/svc-bot" |};
     on_list_access_keys := fun n _ =>
       if (n <=? 1)%nat then inr (existing sc)
       else inr (existing sc ++ if visible sc then [active "AKIA_NEW"] else []);
     on_create_access_key := fun _ _ =>
       inr {| NewAccessKeyId := "AKIA_NEW"; SecretAccessKey := "s3cr3t" |};
     on_delete_access_key := fun _ _ _ => inr (delete_status sc);
     on_requests_get := fun _ url _ =>
       inr {| status_code := fetch_status sc url;
              text := "{}";
              json := inr (<["key" := "pk:" +:+ url]>
                             (<["key_id" := "568250167242549743"]> ∅)) |};
     on_requests_put := fun _ url _ _ =>
       inr {| status_code := upload_status sc url;
              text := "";
              json := inl (LibError "JSONDecodeError" "Expecting value") |};
     on_sealed_box := fun _ pk p =>
       inr ("sealed[" +:+ pk +:+ "](" +:+ p +:+ ")");
     on_open_append := fun _ _ => inr tt |}.

Definition smooth : Scenario :=
  {| existing := [active "AKIA_OLD"]; visible := true;
     fetch_status := fun _ => 200%Z; upload_status := fun _ => 201%Z;
     delete_status := 200%Z |}.

Definition happy_world : World := scenario_world smooth.

Definition two_keys_world : World :=
  scenario_world
    {| existing := [active "AKIA_OLD"; active "AKIA_OLDER"]; visible := true;
       fetch_status := fun _ => 200%Z; upload_status := fun _ => 201%Z;
       delete_status := 200%Z |}.

Definition lagging_world : World :=
  scenario_world
    {| existing := [active "AKIA_OLD"]; visible := false;
       fetch_status := fun _ => 200%Z; upload_status := fun _ => 201%Z;
       delete_status := 200%Z |}.

(** The public key of [org/repoB] cannot be fetched. *)
Definition repoB_missing_world : World :=
  scenario_world
    {| existing := [active "AKIA_OLD"]; visible := true;
       fetch_status := fun url =>
         if PyStr.contains "repoB" url then 404%Z else 200%Z;
       upload_status := fun _ => 201%Z;
       delete_status := 200%Z |}.

(** Uploads are refused. *)
Definition forbidden_world : World :=
  scenario_world
    {| existing := [active "AKIA_OLD"]; visible := true;
       fetch_status := fun _ => 200%Z; upload_status := fun _ => 403%Z;
       delete_status := 200%Z |}.

Definition delete_fails_world : World :=
  scenario_world
    {| existing := [active "AKIA_OLD"]; visible := true;
       fetch_status := fun _ => 200%Z; upload_status := fun _ => 204%Z;
       delete_status := 500%Z |}.

(** STS cannot be reached. *)
Definition sts_down_world : World :=
  {| on_get_caller_identity := fun _ =>
       inl (LibError "EndpointConnectionError"
              "Could not connect to the endpoint URL");
     on_list_access_keys := on_list_access_keys happy_world;
     on_create_access_key := on_create_access_key happy_world;
     on_delete_access_key := on_delete_access_key happy_world;
     on_requests_get := on_requests_get happy_world;
     on_requests_put := on_requests_put happy_world;
     on_sealed_box := on_sealed_box happy_world;
     on_open_append := on_open_append happy_world |}.

Definition job_environ : gmap string string :=
  list_to_map
    [("AWS_ACCESS_KEY_ID", "AKIA_JOB"); ("AWS_SECRET_ACCESS_KEY", "jobsecret");
     ("PERSONAL_ACCESS_TOKEN", "ghp_token");
     ("OWNER_REPOSITORY", "org/repoA, org/repoB");
     ("GITHUB_OUTPUT", "/tmp/out")].

(** The same job, scoped to the deployment environment [prod]. *)
Definition prod_environ : gmap string string :=
  <["GITHUB_ENVIRONMENT" := "prod"]> job_environ.

(** The same job with the identity given explicitly. *)
Definition override_environ : gmap string string :=
  <["IAM_USERNAME" := "svc-bot"]> job_environ.

Definition job_globals : Globals :=
  {| access_key_name := "access_key_id"; secret_key_name := "secret_key_id" |}.

(** The key every example world mints. *)
Definition minted : AccessKey :=
  {| NewAccessKeyId := "AKIA_NEW"; SecretAccessKey := "s3cr3t" |}.

(** What [forbidden_world] answers to an upload, and the first upload of a
    run in it. *)
Definition forbidden_response : Response :=
  {| status_code := 403; text := "";
     json := inl (LibError "JSONDecodeError" "Expecting value") |}.

Definition refused_upload : event :=
  RequestsPut
    "https://api.github.com/repos/org/repoA/actions/secrets/access_key_id"
    {| encrypted_value :=
         "sealed[pk:https://api.github.com/repos/org/repoA/actions/secrets/public-key](AKIA_NEW)";
       key_id := "568250167242549743";
       visibility := "private" |}
    "Bearer ghp_token" (inr forbidden_response).

(** The loop over three targets, after the nine events that precede it, in
    the world where the second target cannot be reached. *)
Definition three_targets : list string :=
  ["org/repoA"; "org/repoB"; "org/repoC"].

Definition missing_repoB_body : string -> M unit :=
  main_loop_body repoB_missing_world job_environ job_globals
    "ghp_token" "AKIA_NEW" "s3cr3t".

(** ** More observations *)

Definition is_sts (e : event) : bool :=
  match e with StsGetCallerIdentity _ => true | _ => false end.

Definition is_list (e : event) : bool :=
  match e with IamListAccessKeys _ _ => true | _ => false end.

Definition is_open (e : event) : bool :=
  match e with OpenAppend _ _ => true | _ => false end.

(** A call to IAM. *)
Definition is_iam (e : event) : bool := is_list e || is_create e || is_delete e.

(** The [UserName] of a call to IAM. *)
Definition iam_user (e : event) : option string :=
  match e with
  | IamListAccessKeys u _ | IamCreateAccessKey u _
  | IamDeleteAccessKey u _ _ => Some u
  | _ => None
  end.

(** How many events of a kind a trace has. *)
Definition count_events (kind : event -> bool) (t : list event) : nat :=
  length (List.filter kind t).

(** What a request to the secret store must carry: the bearer token, and
    for an upload the visibility [private]. *)
Definition well_addressed (github_token : string) (e : event) : Prop :=
  match e with
  | RequestsGet _ auth _ => auth = bearer github_token
  | RequestsPut _ b auth _ =>
      auth = bearer github_token /\ visibility b = "private"
  | _ => True
  end.

(** The confirmation lines of a target when both uploads are accepted. *)
Definition target_lines (environ : gmap string string) (g : Globals)
    (repos : string) : list string :=
  [updated_line environ repos (access_key_name g);
   updated_line environ repos (secret_key_name g)].

(** How often a character occurs in a string. *)
Fixpoint count_char (c : ascii) (s : string) : nat :=
  match s with
  | EmptyString => 0
  | String a s' => (if Ascii.eqb a c then 1 else 0) + count_char c s'
  end.

(** The settings the script reads with a subscript before it calls IAM. *)
Definition early_settings : list string :=
  ["AWS_ACCESS_KEY_ID"; "AWS_SECRET_ACCESS_KEY"; "PERSONAL_ACCESS_TOKEN";
   "OWNER_REPOSITORY"].

(** The job without its token, and without its output file. *)
Definition no_token_environ : gmap string string :=
  delete "PERSONAL_ACCESS_TOKEN" job_environ.

Definition no_output_environ : gmap string string :=
  delete "GITHUB_OUTPUT" job_environ.

(** The first request of a run in [happy_world]. *)
Definition first_fetch : event :=
  RequestsGet
    "https://api.github.com/repos/org/repoA/actions/secrets/public-key"
    "Bearer ghp_token"
    (inr {| status_code := 200; text := "{}";
            json := inr (<["key" :=
                            "pk:https://api.github.com/repos/org/repoA/actions/secrets/public-key"]>
                           (<["key_id" := "568250167242549743"]> ∅)) |}).

(** The body of the loop in [happy_world]. *)
Definition happy_body : string -> M unit :=
  main_loop_body happy_world job_environ job_globals
    "ghp_token" "AKIA_NEW" "s3cr3t".

(** The secret store answers the key fetch with status 200 and an object
    without fields. *)
Definition keyless_answer : lib_error + Response :=
  inr {| status_code := 200; text := "{}"; json := inr ∅ |}.

Definition keyless_world : World :=
  {| on_get_caller_identity := on_get_caller_identity happy_world;
     on_list_access_keys := on_list_access_keys happy_world;
     on_create_access_key := on_create_access_key happy_world;
     on_delete_access_key := on_delete_access_key happy_world;
     on_requests_get := fun _ _ _ => keyless_answer;
     on_requests_put := on_requests_put happy_world;
     on_sealed_box := on_sealed_box happy_world;
     on_open_append := on_open_append happy_world |}.

Definition keyless_body : string -> M unit :=
  main_loop_body keyless_world job_environ job_globals
    "ghp_token" "AKIA_NEW" "s3cr3t".

(** * Properties *)

(** ** Python lists and strings *)

Lemma split_nonempty (sep : ascii) (s : string) : PyStr.split sep s <> [].
Proof.
  destruct s as [|c s]; simpl; [discriminate|].
  destruct (Ascii.eqb c sep); [discriminate|].
  destruct (PyStr.split sep s); discriminate.
Qed.

Lemma split_without_sep (sep : ascii) (s : string) :
  sep ∉ String.list_ascii_of_string s -> PyStr.split sep s = [s].
Proof.
  induction s as [|c s IH]; intros Hnot; [reflexivity|].
  cbn [String.list_ascii_of_string] in Hnot.
  apply not_elem_of_cons in Hnot as [Hne Hnot].
  cbn [PyStr.split]. rewrite (IH Hnot).
  destruct (Ascii.eqb_spec c sep) as [->|_]; [congruence | reflexivity].
Qed.

Lemma split_after_sep (sep : ascii) (a b : string) :
  exists w ws,
    PyStr.split sep (a +:+ String sep b) = w :: ws /\
    ws <> [] /\ last ws = last (PyStr.split sep b).
Proof.
  induction a as [|c a (w & ws & Heq & Hne & Hlast)].
  - exists EmptyString, (PyStr.split sep b).
    change (EmptyString +:+ String sep b) with (String sep b).
    cbn [PyStr.split]. rewrite Ascii.eqb_refl.
    split; [reflexivity | split; [apply split_nonempty | reflexivity]].
  - change (String c a +:+ String sep b) with (String c (a +:+ String sep b)).
    cbn [PyStr.split]. rewrite Heq. destruct (Ascii.eqb c sep).
    + exists EmptyString, (w :: ws). split; [reflexivity|].
      split; [discriminate|]. rewrite last_cons, Hlast.
      destruct (last (PyStr.split sep b)) eqn:E; [reflexivity|].
      apply last_None in E. destruct (split_nonempty _ _ E).
    + exists (String c w), ws. auto.
Qed.

(** The last segment is what follows the last separator. *)
Lemma last_segment_after_sep (sep : ascii) (a b : string) :
  sep ∉ String.list_ascii_of_string b ->
  last_segment sep (a +:+ String sep b) = b.
Proof.
  intros Hnot. unfold last_segment.
  destruct (split_after_sep sep a b) as (w & ws & -> & Hne & Hlast).
  rewrite last_cons, Hlast, (split_without_sep _ _ Hnot).
  reflexivity.
Qed.

Lemma getitem_minus_one {A} (l : list A) (x : A) :
  last l = Some x -> getitem l (-1) = ret x.
Proof.
  intros Hlast. unfold getitem.
  assert (Hlen : (0 < length l)%nat).
  { destruct l; [discriminate | simpl; lia]. }
  replace (-1 <? 0)%Z with true by reflexivity.
  destruct (Z.ltb_spec (-1 + Z.of_nat (length l)) 0) as [Hneg|_]; [lia|].
  replace (Z.to_nat (-1 + Z.of_nat (length l))) with (pred (length l)) by lia.
  rewrite <- last_lookup, Hlast. reflexivity.
Qed.

(** [s.split(sep)[-1]] never raises. *)
Lemma getitem_split_last (sep : ascii) (s : string) :
  getitem (PyStr.split sep s) (-1) = ret (last_segment sep s).
Proof.
  apply getitem_minus_one. unfold last_segment.
  destruct (last (PyStr.split sep s)) eqn:E; [reflexivity|].
  apply last_None in E. destruct (split_nonempty _ _ E).
Qed.

Lemma getitem_zero_cons {A} (x : A) (l : list A) : getitem (x :: l) 0 = ret x.
Proof. reflexivity. Qed.

(** There is always at least one target, if only the empty string. *)
Lemma targets_of_nonempty (s : string) : (0 < length (targets_of s))%nat.
Proof.
  unfold targets_of. rewrite length_fmap.
  pose proof (split_nonempty "," s).
  destruct (PyStr.split "," s); [done | simpl; lia].
Qed.

Lemma append_assoc (a b c : string) : (a +:+ b) +:+ c = a +:+ (b +:+ c).
Proof.
  induction a as [|x a IH]; [reflexivity|].
  change (String x ((a +:+ b) +:+ c) = String x (a +:+ (b +:+ c))).
  f_equal. exact IH.
Qed.

(** [c in s] for a one-character [c] is membership of the character. *)
Lemma contains_char (c : ascii) (s : string) :
  PyStr.contains (String c EmptyString) s = true
  <-> c ∈ String.list_ascii_of_string s.
Proof.
  induction s as [|a s IH];
    cbn [PyStr.contains String.prefix String.list_ascii_of_string].
  - split; [discriminate | intros H; apply elem_of_nil in H; destruct H].
  - rewrite elem_of_cons, <- IH. destruct (ascii_dec c a) as [->|Hne].
    + destruct s; cbn; tauto.
    + cbn [orb]. split; [tauto | intros [?|?]; congruence].
Qed.

Lemma failure_message_carries what r owner_repo github_token :
  carries (failure_message what r owner_repo github_token) r.
Proof.
  exists (what +:+ " request failed, " +:+ spaces 26 +:+ "status code: "),
    (", " +:+ spaces 26 +:+ "body: "),
    (", " +:+ spaces 26 +:+ "vars: " +:+ owner_repo +:+ " " +:+ github_token
       +:+ " " +:+ spaces 24).
  unfold failure_message. rewrite !append_assoc. reflexivity.
Qed.

(** ** Observations and concatenation *)

Lemma good_uploads_app t1 t2 :
  good_uploads (t1 ++ t2) = (good_uploads t1 + good_uploads t2)%nat.
Proof.
  unfold good_uploads. rewrite List.filter_app, length_app. reflexivity.
Qed.

Lemma good_uploads_cons e t :
  good_uploads (e :: t) =
  ((if is_good_upload e then 1 else 0) + good_uploads t)%nat.
Proof.
  unfold good_uploads. simpl. destruct (is_good_upload e); reflexivity.
Qed.

Lemma contacted_app t1 t2 : contacted (t1 ++ t2) = contacted t1 ++ contacted t2.
Proof. apply omap_app. Qed.

Lemma uploaded_app t1 t2 : uploaded (t1 ++ t2) = uploaded t1 ++ uploaded t2.
Proof. apply omap_app. Qed.

Lemma stdout_of_app t1 t2 : stdout_of (t1 ++ t2) = stdout_of t1 ++ stdout_of t2.
Proof. apply omap_app. Qed.

Lemma loop_event_quiet t :
  Forall (fun e => is_loop_event e = true) t ->
  Forall (fun e => is_delete e = false) t /\ disk_of t = [].
Proof.
  induction 1 as [|e t He _ [IHd IHf]]; [split; [constructor | reflexivity]|].
  split.
  - constructor; [|exact IHd]. destruct e; cbv in He |- *; congruence.
  - unfold disk_of in *. cbn [omap list_omap]. rewrite IHf.
    destruct e; cbv in He; try discriminate He; reflexivity.
Qed.

(** ** Running the script symbolically

    The definitions are unfolded once; then the innermost scrutinee that the
    run depends on (a lookup in the environment, an answer of the world, a
    test) is case-split, one at a time, so that every goal is one way the run
    can go, with its trace written out. *)

Ltac unfold_prims :=
  unfold os_environ_getitem, dict_getitem, sts_get_caller_identity,
    iam_list_access_keys, iam_create_access_key, iam_delete_access_key,
    requests_get, requests_put, open_append, call, bind, ret, raise,
    sys_exit, print, fprint.

Ltac unfold_body :=
  unfold main_loop_body, get_pub_key, upload_secret, encrypt; unfold_prims.

Ltac unfold_script :=
  unfold run, script, main_function, who_am_i, boto3_client,
    create_new_keys, delete_old_keys; unfold_prims.

Ltac exec_step :=
  match goal with
  | |- context [getitem (PyStr.split ?c ?s) (-1)] =>
      rewrite (getitem_split_last c s); unfold ret
  | |- context [getitem (?x :: ?l) 0] =>
      rewrite (getitem_zero_cons x l); unfold ret
  | H : (length ?l =? 1)%nat = true |- _ =>
      is_var l; destruct l as [|? [|? ?]]; try discriminate H; clear H
  | H : ?x = _ |- context [match ?x with _ => _ end] => rewrite H
  | |- context [match ?x with _ => _ end] =>
      lazymatch x with
      | context [match _ with _ => _ end] => fail
      | _ => destruct x eqn:?
      end
  end.

Ltac exec_simpl := cbv beta iota zeta; cbn [length Nat.add app fst snd].

Ltac exec := repeat (exec_simpl; exec_step); exec_simpl.

(** Tests back to propositions. *)
Ltac tidy :=
  repeat match goal with
    | H : negb _ = true |- _ => apply (proj1 (negb_true_iff _)) in H
    | H : negb _ = false |- _ => apply (proj1 (negb_false_iff _)) in H
    | H : bool_decide _ = true |- _ => apply bool_decide_eq_true_1 in H
    | H : bool_decide _ = false |- _ => apply bool_decide_eq_false_1 in H
    | H : (_ <=? _)%nat = false |- _ => apply (proj1 (Nat.leb_gt _ _)) in H
    | H : (_ <=? _)%nat = true |- _ => apply (proj1 (Nat.leb_le _ _)) in H
    | H : (_ =? _)%nat = false |- _ => apply (proj1 (Nat.eqb_neq _ _)) in H
    | H : (_ =? _)%Z = true |- _ => apply (proj1 (Z.eqb_eq _ _)) in H
    | H : (_ =? _)%Z = false |- _ => apply (proj1 (Z.eqb_neq _ _)) in H
    end.

(** The tests on statuses, rewritten where they occur. *)
Ltac use_status :=
  repeat match goal with
    | H : negb _ = false |- _ => apply (proj1 (negb_false_iff _)) in H
    | H : negb _ = true |- _ => apply (proj1 (negb_true_iff _)) in H
    end;
  repeat match goal with
    | H : bool_decide _ = _ |- context [bool_decide _] => rewrite H
    | H : (_ =? _)%Z = _ |- context [(_ =? _)%Z] => rewrite H
    | H : bool_decide _ = _, H' : context [bool_decide _] |- _ =>
        rewrite H in H'
    | H : (_ =? _)%Z = _, H' : context [(_ =? _)%Z] |- _ => rewrite H in H'
    end.

(** Membership in a trace that is written out. *)
Ltac split_in H :=
  repeat (rewrite elem_of_cons in H || rewrite elem_of_app in H
          || rewrite elem_of_nil in H);
  repeat match goal with
    | H' : _ \/ _ |- _ => destruct H' as [H'|H']
    | H' : False |- _ => destruct H'
    end.

(** ** Loops *)

Lemma for_each_inv {A} (body : A -> M unit) (l : list A) :
  forall n r t,
    for_each l body n = (r, t) ->
    (r = Ret tt /\ blocks body n l t) \/
    (exists o done x rest t1 t2,
        r = Halt o /\ l = done ++ x :: rest /\ t = t1 ++ t2 /\
        blocks body n done t1 /\
        body x (n + length t1)%nat = (Halt o, t2)).
Proof.
  induction l as [|x l IH]; intros n r t Hrun.
  - injection Hrun as <- <-. left. split; [reflexivity | constructor].
  - simpl in Hrun. unfold bind in Hrun.
    destruct (body x n) as [[[]|o] tx] eqn:Hx.
    + destruct (for_each l body (n + length tx)) as [r' t'] eqn:Hl.
      injection Hrun as <- <-.
      destruct (IH _ _ _ Hl)
        as [[-> Hb]|(o & done & y & rest & t1 & t2 & -> & -> & -> & Hb & Hy)].
      * left. split; [reflexivity | econstructor; eassumption].
      * right. exists o, (x :: done), y, rest, (tx ++ t1), t2.
        repeat split; [apply app_assoc | econstructor; eassumption |].
        rewrite length_app, Nat.add_assoc. exact Hy.
    + injection Hrun as <- <-. right.
      exists o, [], x, l, [], tx. repeat split; [constructor|].
      simpl. rewrite Nat.add_0_r. exact Hx.
Qed.

Lemma for_each_Forall {A} (body : A -> M unit) (P : event -> Prop)
    (l : list A) :
  (forall x n r t, body x n = (r, t) -> Forall P t) ->
  forall n r t, for_each l body n = (r, t) -> Forall P t.
Proof.
  intros Hbody. induction l as [|x l IH]; intros n r t Hrun.
  - injection Hrun as <- <-. constructor.
  - simpl in Hrun. unfold bind in Hrun.
    destruct (body x n) as [[[]|o] tx] eqn:Hx.
    + destruct (for_each l body (n + length tx)) as [r' t'] eqn:Hl.
      injection Hrun as <- <-. apply Forall_app. split; eauto.
    + injection Hrun as <- <-. eauto.
Qed.

(** ** One target: the body of the loop *)

Section OneTarget.
Variable world : World.
Variable environ : gmap string string.
Variable g : Globals.
Variables github_token new_access_key new_secret_key : string.

Local Abbreviation body :=
  (main_loop_body world environ g github_token new_access_key new_secret_key).

Lemma body_events repos n r t :
  body repos n = (r, t) -> Forall (fun e => is_loop_event e = true) t.
Proof. unfold_body. exec; intros [= <- <-]; repeat constructor. Qed.

(** The body ends the run only by an uncaught exception, never an
    [IndexError]. *)
Lemma body_halt repos n o t :
  body repos n = (Halt o, t) ->
  exists e, o = Uncaught e /\ forall msg, e <> IndexError msg.
Proof.
  unfold_body. exec; intros [= <- <-]; eexists; split;
    try reflexivity; discriminate.
Qed.

(** Two accepted uploads when the body completes, at most one otherwise. *)
Lemma body_good_uploads repos n r t :
  body repos n = (r, t) ->
  match r with
  | Ret _ => good_uploads t = 2%nat
  | Halt _ => (good_uploads t <= 1)%nat
  end.
Proof.
  unfold_body. exec; intros [= <- <-].
  all: unfold good_uploads; cbn [List.filter is_good_upload]; use_status.
  all: cbn [length]; lia.
Qed.

Lemma body_requests repos n r t :
  body repos n = (r, t) ->
  match r with
  | Ret _ =>
      contacted t = target_requests environ g repos /\
      uploaded t = target_uploads environ g repos
  | Halt _ =>
      contacted t `prefix_of` target_requests environ g repos /\
      uploaded t `prefix_of`
        [secret_endpoint environ repos (access_key_name g)]
  end.
Proof.
  unfold_body. exec; intros [= <- <-].
  all: unfold contacted, uploaded, target_requests, target_uploads;
    cbn [omap list_omap is_good_upload]; use_status.
  all: split; try reflexivity.
  all: eexists; reflexivity.
Qed.

(** A rejected response ends the body there, with an [Exception] that
    shows it. *)
Lemma body_rejected repos n r t e resp :
  body repos n = (r, t) ->
  e ∈ t ->
  rejected_response e = Some resp ->
  last t = Some e /\
  exists msg, r = Halt (Uncaught (Exception msg)) /\ carries msg resp.
Proof.
  unfold_body. exec; intros [= <- <-] Hin Hrej.
  all: split_in Hin; subst; cbn [rejected_response] in Hrej;
    try discriminate Hrej.
  all: use_status; try discriminate Hrej.
  all: injection Hrej as <-; split; [reflexivity|].
  all: eexists; split; [reflexivity|].
  all: apply failure_message_carries.
Qed.

(** C10.  For every propagation target, the target's public key is fetched
    exactly once; both credential fields are sealed with that fetched key;
    both uploads carry the key id returned by that fetch; the access-id
    secret is uploaded before the secret-value secret. *)
Theorem one_key_per_target repos n r t :
  body repos n = (r, t) ->
  one_key environ g github_token new_access_key new_secret_key repos r t.
Proof.
  unfold one_key. unfold_body. exec; intros [= <- <-].
  all: eexists _, _; split; [reflexivity|].
  all: split; [repeat constructor|].
  all: split; [intros ? ? ? Hin; split_in Hin; try discriminate|].
  all: try match goal with
         | H : SealedBoxEncrypt _ _ _ = SealedBoxEncrypt _ _ _ |- _ =>
             injection H as -> -> ->
         end.
  all: try (unfold fetched;
            repeat match goal with H : _ = _ |- _ => rewrite H end;
            reflexivity).
  all: split; [intros ? ? ? ? Hin; split_in Hin; try discriminate|].
  all: try match goal with
         | H : RequestsPut _ _ _ _ = RequestsPut _ _ _ _ |- _ =>
             injection H as -> -> -> ->
         end.
  all: try (unfold fetched;
            repeat match goal with H : _ = _ |- _ => rewrite H end;
            reflexivity).
  all: unfold sealings, uploads; cbn [omap list_omap encrypted_value].
  all: eexists _, _; (split; [eexists; reflexivity|]);
    (split; [eexists; reflexivity|]);
    intros Hr; try discriminate Hr; split; reflexivity.
  Unshelve. all: exact EmptyString.
Qed.

End OneTarget.

(** ** All targets: the loop *)

Section AllTargets.
Variable world : World.
Variable environ : gmap string string.
Variable g : Globals.
Variables github_token new_access_key new_secret_key : string.

Local Abbreviation body :=
  (main_loop_body world environ g github_token new_access_key new_secret_key).

Lemma loop_events l n r t :
  for_each l body n = (r, t) -> Forall (fun e => is_loop_event e = true) t.
Proof. apply for_each_Forall. intros x. apply body_events. Qed.

Lemma loop_halt l n o t :
  for_each l body n = (Halt o, t) ->
  exists e, o = Uncaught e /\ forall msg, e <> IndexError msg.
Proof.
  intros Hrun.
  destruct (for_each_inv _ _ _ _ _ Hrun)
    as [[[=] _]|(o' & done & x & rest & t1 & t2 & [= <-] & _ & _ & _ & Hx)].
  eapply body_halt; eassumption.
Qed.

Lemma blocks_good_uploads l : forall n t,
  blocks body n l t -> good_uploads t = (2 * length l)%nat.
Proof.
  induction l as [|x l IH]; intros n t Hb; inversion Hb; subst; [reflexivity|].
  rewrite good_uploads_app, (IH _ _ H4).
  pose proof (body_good_uploads _ _ _ _ _ _ _ _ _ _ H2) as Hx.
  cbn [length] in *. lia.
Qed.

(** All the uploads were accepted exactly when the loop completed. *)
Lemma loop_good_uploads l n r t :
  for_each l body n = (r, t) ->
  match r with
  | Ret _ => good_uploads t = (2 * length l)%nat
  | Halt _ => (good_uploads t < 2 * length l)%nat
  end.
Proof.
  intros Hrun.
  destruct (for_each_inv _ _ _ _ _ Hrun)
    as [[-> Hb]|(o & done & x & rest & t1 & t2 & -> & -> & -> & Hb & Hx)].
  - eapply blocks_good_uploads; eassumption.
  - rewrite good_uploads_app, (blocks_good_uploads _ _ _ Hb), length_app.
    pose proof (body_good_uploads _ _ _ _ _ _ _ _ _ _ Hx) as H.
    cbn [length] in *. lia.
Qed.

Lemma blocks_requests l : forall n t,
  blocks body n l t ->
  contacted t = l ≫= target_requests environ g /\
  uploaded t = l ≫= target_uploads environ g.
Proof.
  induction l as [|x l IH]; intros n t Hb; inversion Hb; subst;
    [split; reflexivity|].
  destruct (IH _ _ H4) as [Hc Hu].
  destruct (body_requests _ _ _ _ _ _ _ _ _ _ H2) as [Hcx Hux].
  rewrite contacted_app, uploaded_app, Hc, Hu, Hcx, Hux. split; reflexivity.
Qed.

Lemma blocks_not_rejected l : forall n t e resp,
  blocks body n l t -> e ∈ t -> rejected_response e = Some resp -> False.
Proof.
  induction l as [|x l IH]; intros n t e resp Hb Hin Hrej;
    inversion Hb; subst.
  - apply elem_of_nil in Hin. exact Hin.
  - apply elem_of_app in Hin as [Hin|Hin]; [|eauto].
    destruct (body_rejected _ _ _ _ _ _ _ _ _ _ _ _ H2 Hin Hrej)
      as (_ & msg & [=] & _).
Qed.

Lemma loop_rejected l n r t e resp :
  for_each l body n = (r, t) ->
  e ∈ t ->
  rejected_response e = Some resp ->
  last t = Some e /\
  exists msg, r = Halt (Uncaught (Exception msg)) /\ carries msg resp.
Proof.
  intros Hrun Hin Hrej.
  destruct (for_each_inv _ _ _ _ _ Hrun)
    as [[-> Hb]|(o & done & x & rest & t1 & t2 & -> & -> & -> & Hb & Hx)].
  - destruct (blocks_not_rejected _ _ _ _ _ Hb Hin Hrej).
  - apply elem_of_app in Hin as [Hin|Hin].
    + destruct (blocks_not_rejected _ _ _ _ _ Hb Hin Hrej).
    + destruct (body_rejected _ _ _ _ _ _ _ _ _ _ _ _ Hx Hin Hrej)
        as (Hlast & msg & [= ->] & Hmsg).
      split; [rewrite last_app, Hlast; reflexivity|].
      exists msg. split; [reflexivity | exact Hmsg].
Qed.

(** C4.  For every list of propagation targets, the targets are processed
    strictly in the order supplied; if the processing of a target raises a
    failure, every target before it has already received both secret uploads
    and no target after it is ever contacted. *)
Theorem propagation_in_order targets n r t :
  for_each targets body n = (r, t) ->
  in_order environ g body targets n r t.
Proof.
  intros Hrun. unfold in_order.
  destruct (for_each_inv _ _ _ _ _ Hrun)
    as [[-> Hb]|(o & done & x & rest & t1 & t2 & -> & -> & -> & Hb & Hx)].
  - eapply blocks_requests; eassumption.
  - exists (length done), x, t1, t2.
    destruct (blocks_requests _ _ _ Hb) as [Hc Hu].
    pose proof (body_requests _ _ _ _ _ _ _ _ _ _ Hx) as [Hcx Hux].
    rewrite take_app_length.
    repeat split; try assumption.
    rewrite lookup_app_r, Nat.sub_diag by lia. reflexivity.
Qed.

(** The requests of the loop, without the traces of the bodies. *)
Lemma loop_requests_in_order targets n r t :
  for_each targets body n = (r, t) ->
  requests_in_order environ g targets (contacted t) (uploaded t).
Proof.
  intros Hrun.
  destruct (for_each_inv _ _ _ _ _ Hrun)
    as [[-> Hb]|(o & done & x & rest & t1 & t2 & -> & -> & -> & Hb & Hx)].
  - destruct (blocks_requests _ _ _ Hb) as [Hc Hu].
    exists (length targets), [], [].
    rewrite firstn_all, !app_nil_r, lookup_ge_None_2 by lia.
    repeat split; assumption.
  - destruct (blocks_requests _ _ _ Hb) as [Hc Hu].
    pose proof (body_requests _ _ _ _ _ _ _ _ _ _ Hx) as [Hcx Hux].
    exists (length done), (contacted t2), (uploaded t2).
    rewrite contacted_app, uploaded_app, Hc, Hu, take_app_length.
    rewrite lookup_app_r, Nat.sub_diag by lia.
    repeat split; assumption.
Qed.

End AllTargets.

(** ** Whole runs *)

(** What is known of the loop once the case split reaches it. *)
Ltac loop_facts :=
  repeat match goal with
    | H : for_each _ _ _ = _ |- _ =>
        pose proof (loop_events _ _ _ _ _ _ _ _ _ _ H);
        pose proof (loop_good_uploads _ _ _ _ _ _ _ _ _ _ H);
        try (destruct (loop_halt _ _ _ _ _ _ _ _ _ _ H) as (? & -> & ?));
        clear H
    end.

(** An event that the loop cannot add is not in the trace of the loop. *)
Ltac not_in_loop :=
  match goal with
  | Hall : Forall _ ?l, Hin : _ ∈ ?l |- _ =>
      rewrite Forall_forall in Hall; apply Hall in Hin; discriminate Hin
  end.

Section Runs.
Variable world : World.
Variable environ : gmap string string.

(** C1.  For every run in which the pre-existing credential count of the
    identity is at least 2, the job prints a diagnostic and exits with
    status 1; it issues no create-credential, delete-credential or
    secret-propagation call, and the output file is not written. *)
Theorem guard_two_keys o t l :
  run world environ = (o, t) ->
  first_listing t = Some (inr l) ->
  (2 <= length l)%nat ->
  o = Exited 1 /\ exit_status o = 1%Z /\
  last t = Some (Stdout
    "There are already 2 keys for this user. Cannot rotate tokens.") /\
  Forall (fun e => is_create e = false /\ is_delete e = false /\
                   is_propagation e = false /\ is_seal e = false /\
                   is_file e = false) t.
Proof.
  intros Hrun; revert Hrun. unfold_script. exec; intros [= <- <-] Hfirst Hlen.
  all: cbn [first_listing] in Hfirst; try discriminate.
  all: injection Hfirst as <-; tidy; try lia.
  repeat split. repeat constructor.
Qed.

(** C2.  For every run in which the newly created access identifier is
    absent from the immediate re-list of the identity's credentials, the job
    terminates with failure status (exit 1) and issues no secret-propagation
    call and no credential-deletion call. *)
Theorem unverified_key_not_propagated o t k l2 :
  run world environ = (o, t) ->
  created_key t = Some (inr k) ->
  listing_after_create t = Some (inr l2) ->
  NewAccessKeyId k ∉ AccessKeyId <$> l2 ->
  o = Exited 1 /\ exit_status o = 1%Z /\
  last t = Some (Stdout "new keys failed to generate.") /\
  Forall (fun e => is_propagation e = false /\ is_seal e = false /\
                   is_delete e = false /\ is_file e = false) t.
Proof.
  intros Hrun; revert Hrun. unfold_script. exec; intros [= <- <-] Hk Hl Hnotin.
  all: cbn [created_key listing_after_create first_listing] in Hk, Hl;
    try discriminate.
  all: injection Hk as <-; injection Hl as <-; tidy; try contradiction.
  repeat split. repeat constructor.
Qed.

(** C3.  When the precondition check found exactly one pre-existing
    credential, then after all propagation targets succeeded the job deletes
    exactly that credential by its identifier, and exits 1 if the status of
    the delete response is not 200; when it found none, no deletion call is
    made. *)
Theorem retire_previous_key o t :
  run world environ = (o, t) ->
  (forall m owner_repository,
      first_listing t = Some (inr [m]) ->
      environ !! "OWNER_REPOSITORY" = Some owner_repository ->
      good_uploads t = (2 * length (targets_of owner_repository))%nat ->
      retired o t m) /\
  (first_listing t = Some (inr []) ->
   Forall (fun e => is_delete e = false) t).
Proof.
  intros Hrun; revert Hrun. unfold retired. unfold_script.
  exec; intros [= <- <-].
  all: pose proof targets_of_nonempty as Hne.
  all: loop_facts.
  all: split;
    [intros m ors Hfirst Hors Hcount | intros Hfirst];
    cbn [first_listing] in Hfirst; try discriminate.
  all: injection Hfirst as Hfirst; try discriminate Hfirst.
  all: try (injection Hors as <-;
            rewrite ?good_uploads_cons, ?good_uploads_app in Hcount;
            cbn [is_good_upload good_uploads List.filter length Nat.add]
              in Hcount;
            match goal with
            | H : environ !! "OWNER_REPOSITORY" = Some ?s |- _ =>
                specialize (Hne s)
            end).
  all: try lia.
  all: try (repeat (apply Forall_cons; split; [reflexivity|]);
            rewrite ?app_nil_r;
            first [constructor | apply loop_event_quiet; assumption]).
  all: subst;
    try match goal with
      | H : (length [_] =? 1)%nat = false |- _ => discriminate H
      end.
  all: rewrite !app_comm_cons; eexists _, _, _, _.
  all: split; [reflexivity|].
  all: split;
    [rewrite !good_uploads_app, !good_uploads_cons;
     cbn [is_good_upload good_uploads List.filter length Nat.add]; lia|].
  all: split;
    [repeat (apply Forall_cons; split; [reflexivity|]);
     apply loop_event_quiet; assumption|].
  all: use_status; split; reflexivity.
Qed.

(** C9.  The deletion step indexes the list of pre-mint credentials at
    position 0 only when that list has exactly one element: the index is
    always in bounds, and the identifier passed to the deletion is that of a
    credential that existed before minting. *)
Theorem deleted_key_existed o t :
  run world environ = (o, t) ->
  (forall msg, o <> Uncaught (IndexError msg)) /\
  (forall user id r,
      IamDeleteAccessKey user id r ∈ t ->
      exists m, first_listing t = Some (inr [m]) /\ id = AccessKeyId m).
Proof.
  intros Hrun; revert Hrun. unfold_script. exec; intros [= <- <-].
  all: loop_facts.
  all: split; [try discriminate; try (intros ? [= ->]; congruence)|].
  all: intros ? ? ? Hin; cbn [first_listing]; split_in Hin;
    try discriminate; try not_in_loop.
  all: match goal with
       | H : IamDeleteAccessKey _ _ _ = IamDeleteAccessKey _ _ _ |- _ =>
           injection H as -> -> ->
       end.
  all: eexists; split; reflexivity.
Qed.

End Runs.

(** ** The requests of a whole run *)

Lemma requests_in_order_nil environ g targets :
  requests_in_order environ g targets [] [].
Proof.
  exists 0%nat, [], []. split; [reflexivity|]. split; [reflexivity|].
  destruct (targets !! 0%nat); split; solve [reflexivity | apply prefix_nil].
Qed.

Section RunOrder.
Variable world : World.
Variable environ : gmap string string.

(** X15.  On a whole run the requests to the secret stores follow the
    order of the targets of [OWNER_REPOSITORY]: they are the three requests
    of each of the first [K] targets, with both uploads accepted, then a
    prefix of the requests of the next target if there is one; no later
    target is contacted. *)
Lemma run_propagation_in_order o t owner_repository :
  run world environ = (o, t) ->
  environ !! "OWNER_REPOSITORY" = Some owner_repository ->
  requests_in_order environ (module_globals environ)
    (targets_of owner_repository) (contacted t) (uploaded t).
Proof.
  intros Hrun; revert Hrun. unfold_script. exec; intros [= <- <-] Hors.
  all: try discriminate Hors; try (injection Hors as <-).
  all: try match goal with
         | H : for_each _ _ _ = _ |- _ =>
             pose proof (loop_requests_in_order _ _ _ _ _ _ _ _ _ _ H)
               as Hio;
             clear H
         end.
  all: unfold contacted, uploaded in *; cbn [omap list_omap is_good_upload];
    rewrite ?omap_app; cbn [omap list_omap is_good_upload];
    rewrite ?app_nil_r.
  all: first [apply requests_in_order_nil | exact Hio].
Qed.
End RunOrder.

(** ** Requests to the secret store *)

Section Requests.
Variable world : World.
Variable environ : gmap string string.

(** C6.  For every secret upload exactly the statuses 201 and 204 are
    accepted; for any other status the job raises an error that carries the
    status code and the response body, and so it does for a public-key fetch
    that is not answered with the success status; the error is never caught
    and the request never retried: the run ends there, with failure. *)
Theorem rejected_request_is_fatal :
  (forall owner_repo key_name enc kid tok n resp,
      on_requests_put world n (secret_endpoint environ owner_repo key_name)
        {| encrypted_value := enc; key_id := kid; visibility := "private" |}
        (bearer tok) = inr resp ->
      (upload_secret world environ owner_repo key_name enc kid tok n).1
        = Ret tt
      <-> status_code resp = 201%Z \/ status_code resp = 204%Z) /\
  (forall o t e resp,
      run world environ = (o, t) ->
      e ∈ t ->
      rejected_response e = Some resp ->
      last t = Some e /\
      (exists msg, o = Uncaught (Exception msg) /\ carries msg resp) /\
      exit_status o = 1%Z).
Proof.
  split.
  - intros owner_repo key_name enc kid tok n resp Hans.
    unfold upload_secret. unfold_prims. rewrite Hans. cbv beta iota zeta.
    destruct (bool_decide (status_code resp ∈ [204%Z; 201%Z])) eqn:Hst;
      cbn [negb fst]; tidy.
    + split; [intros _|reflexivity].
      rewrite !elem_of_cons in Hst. rewrite elem_of_nil in Hst. tauto.
    + split; [discriminate|]. intros Hok. exfalso. apply Hst.
      rewrite !elem_of_cons. tauto.
  - intros o t e resp Hrun; revert Hrun. unfold_script.
    exec; intros [= <- <-] Hin Hrej.
    all: rewrite ?app_nil_r in *.
    all: split_in Hin; subst; try discriminate Hrej.
    all: match goal with
         | H : for_each _ _ _ = _, Hin : _ ∈ _ |- _ =>
             destruct (loop_rejected _ _ _ _ _ _ _ _ _ _ _ _ H Hin Hrej)
               as (Hlast & msg & [= ->] & Hmsg)
         end.
    split; [rewrite !last_cons, Hlast; reflexivity|].
    split; [exists msg; split; [reflexivity | exact Hmsg] | reflexivity].
Qed.

(** C5, as the code has it.  The path segment is [repos] when the target
    contains a slash and [orgs] otherwise; the key fetch and the upload go to
    the endpoints computed from it; when an environment is configured (set
    and not empty) these are
    [{repos|orgs}/{target}/environments/{env}/secrets/...], the environment
    segment taking the place of [/actions]; otherwise they are
    [{repos|orgs}/{target}/actions/secrets/...]. *)
Theorem target_endpoints owner_repo :
  endpoint_path owner_repo =
    (if bool_decide ("/"%char ∈ String.list_ascii_of_string owner_repo)
     then "repos" else "orgs") /\
  (forall tok n, exists ans,
      (get_pub_key world environ owner_repo tok n).2 =
      [RequestsGet (public_key_endpoint environ owner_repo) (bearer tok) ans])
  /\
  (forall key_name enc kid tok n, exists ans rest,
      (upload_secret world environ owner_repo key_name enc kid tok n).2 =
      RequestsPut (secret_endpoint environ owner_repo key_name)
        {| encrypted_value := enc; key_id := kid; visibility := "private" |}
        (bearer tok) ans :: rest) /\
  (forall env,
      environ !! "GITHUB_ENVIRONMENT" = Some env -> env <> "" ->
      public_key_endpoint environ owner_repo =
        "https://api.github.com/" +:+ endpoint_path owner_repo +:+ "/"
          +:+ owner_repo +:+ "/environments/" +:+ env
          +:+ "/secrets/public-key" /\
      forall key_name,
        secret_endpoint environ owner_repo key_name =
          "https://api.github.com/" +:+ endpoint_path owner_repo +:+ "/"
            +:+ owner_repo +:+ "/environments/" +:+ env
            +:+ "/secrets/" +:+ key_name) /\
  (environ !! "GITHUB_ENVIRONMENT" = None \/
   environ !! "GITHUB_ENVIRONMENT" = Some "" ->
      public_key_endpoint environ owner_repo =
        "https://api.github.com/" +:+ endpoint_path owner_repo +:+ "/"
          +:+ owner_repo +:+ "/actions/secrets/public-key" /\
      forall key_name,
        secret_endpoint environ owner_repo key_name =
          "https://api.github.com/" +:+ endpoint_path owner_repo +:+ "/"
            +:+ owner_repo +:+ "/actions/secrets/" +:+ key_name).
Proof.
  split; [|split; [|split; [|split]]].
  - unfold endpoint_path.
    destruct (PyStr.contains "/" owner_repo) eqn:Hc;
      case_bool_decide as Hin; try reflexivity; exfalso.
    + apply Hin, contains_char, Hc.
    + apply contains_char in Hin. congruence.
  - intros tok n. unfold get_pub_key. unfold_prims. exec;
      eexists; reflexivity.
  - intros key_name enc kid tok n. unfold upload_secret. unfold_prims. exec;
      eexists _, _; reflexivity.
  - intros env Henv Hne. unfold public_key_endpoint, secret_endpoint.
    rewrite Henv. destruct env; [congruence|]. split; reflexivity.
  - intros [Henv|Henv]; unfold public_key_endpoint, secret_endpoint;
      rewrite Henv; split; reflexivity.
Qed.

End Requests.

(** ** Which identity *)

Section Identity.
Variable world : World.
Variable environ : gmap string string.

(** Whatever the environment says, a run that does anything starts by
    asking STS who the caller is. *)
Lemma introspection_comes_first o t e :
  run world environ = (o, t) ->
  head t = Some e ->
  exists ans, e = StsGetCallerIdentity ans.
Proof.
  intros Hrun; revert Hrun. unfold_script. exec; intros [= <- <-] Hhead.
  all: cbn [head] in Hhead; try discriminate Hhead.
  all: injection Hhead as <-; eexists; reflexivity.
Qed.

(** When that call succeeds, the credentials listed are those of the
    override if there is one, and else of the last segment of the ARN. *)
Lemma identity_listed o t user ans :
  run world environ = (o, t) ->
  IamListAccessKeys user ans ∈ t ->
  exists c rest,
    t = StsGetCallerIdentity (inr c) :: rest /\
    user = default (last_segment "/" (Arn c)) (environ !! "IAM_USERNAME").
Proof.
  intros Hrun; revert Hrun. unfold_script. exec; intros [= <- <-] Hin.
  all: loop_facts.
  all: split_in Hin; try discriminate; try not_in_loop.
  all: match goal with
       | H : IamListAccessKeys _ _ = IamListAccessKeys _ _ |- _ =>
           injection H as -> _
       end.
  all: eexists _, _; split; reflexivity.
Qed.

End Identity.

(** ** Where the new secret goes *)

Section SecretFlow.
Variable world : World.
Variable environ : gmap string string.

(** Once the output file is open, the two lines appended to it are the new
    access identifier and the new secret, under their configured names. *)
Lemma output_file_lines o t path :
  run world environ = (o, t) ->
  OpenAppend path (inr tt) ∈ t ->
  exists k,
    created_key t = Some (inr k) /\
    disk_of t =
      [(path, default "access_key_id" (environ !! "GITHUB_ACCESS_KEY_NAME")
                +:+ "=" +:+ NewAccessKeyId k);
       (path, default "secret_key_id" (environ !! "GITHUB_SECRET_KEY_NAME")
                +:+ "=" +:+ SecretAccessKey k)].
Proof.
  intros Hrun; revert Hrun. unfold_script. exec; intros [= <- <-] Hin.
  all: loop_facts.
  all: split_in Hin; try discriminate; try not_in_loop.
  all: match goal with
       | H : OpenAppend _ _ = OpenAppend _ _ |- _ => injection H as -> _
       end.
  all: eexists; split; [reflexivity|].
  all: unfold disk_of; cbn [omap list_omap]; rewrite ?omap_app;
    cbn [omap list_omap];
    repeat match goal with
      | H : Forall _ ?l |- context [omap _ ?l] =>
          let Hd := fresh "Hd" in
          pose proof (proj2 (loop_event_quiet l H)) as Hd;
          unfold disk_of in Hd; rewrite Hd; clear H
      end; reflexivity.
Qed.

Hypothesis Hupload : upload_blind world.
Hypothesis Hseal : sealing_blind world.

(** Two runs in step: the points where the secret enters a call. *)
Ltac blind_step :=
  match goal with
  | |- context [on_sealed_box world ?n ?pk ?p] =>
      match goal with
      | |- context [on_sealed_box world n pk ?p'] =>
          assert_fails (constr_eq p p');
          let H := fresh "Hs" in
          pose proof (Hseal n pk p p') as H;
          destruct (on_sealed_box world n pk p),
                   (on_sealed_box world n pk p');
          cbn [sum_map id] in H; try discriminate H;
          try (injection H as ->)
      end
  | |- context [on_requests_put world ?n ?url ?b ?auth] =>
      match goal with
      | |- context [on_requests_put world n url ?b' auth] =>
          assert_fails (constr_eq b b');
          rewrite (Hupload n url b' b auth eq_refl eq_refl)
      end
  end.

Lemma body_secret_blind g tok ak sk sk' repos n :
  observable (main_loop_body world environ g tok ak sk repos n)
  = observable (main_loop_body world environ g tok ak sk' repos n).
Proof.
  unfold observable. unfold_body.
  repeat (exec_simpl; first [blind_step | exec_step]); exec_simpl;
    reflexivity.
Qed.

Lemma loop_secret_blind g tok ak sk sk' l : forall n,
  observable (for_each l (main_loop_body world environ g tok ak sk) n)
  = observable (for_each l (main_loop_body world environ g tok ak sk') n).
Proof.
  induction l as [|x l IH]; intros n; [reflexivity|].
  cbn [for_each]. unfold bind.
  pose proof (body_secret_blind g tok ak sk sk' x n) as Hx.
  destruct (main_loop_body world environ g tok ak sk x n) as [r t].
  destruct (main_loop_body world environ g tok ak sk' x n) as [r' t'].
  unfold observable in Hx. cbn [fst snd] in Hx.
  injection Hx as -> Hlen Hout.
  destruct r' as [[]|o]; [|unfold observable; cbn [fst snd]; congruence].
  specialize (IH (n + length t)%nat). rewrite Hlen in IH at 2.
  destruct (for_each l _ (n + length t)%nat) as [r1 t1].
  destruct (for_each l _ (n + length t')%nat) as [r1' t1'].
  unfold observable in *. cbn [fst snd] in *.
  injection IH as -> Hlen1 Hout1.
  rewrite !length_app, !stdout_of_app. congruence.
Qed.

Ltac loop_blind_step :=
  match goal with
  | |- context [for_each ?l (main_loop_body world environ ?g ?tok ?ak ?sk) ?n]
    =>
      match goal with
      | |- context [for_each l (main_loop_body world environ g tok ak ?sk') n]
        =>
          assert_fails (constr_eq sk sk');
          let H := fresh "Hobs" in
          let Hlen := fresh "Hlen" in
          let Hout := fresh "Hout" in
          pose proof (loop_secret_blind g tok ak sk sk' l n) as H;
          destruct (for_each l (main_loop_body world environ g tok ak sk) n),
                   (for_each l (main_loop_body world environ g tok ak sk') n);
          unfold observable in H; cbn [fst snd] in H;
          injection H as -> Hlen Hout;
          try rewrite Hlen
      end
  end.

(** The log of a run is the same whatever secret the provider hands out. *)
Lemma log_secret_blind s' :
  log_of (run (with_secret s' world) environ) = log_of (run world environ).
Proof.
  unfold log_of. unfold_script.
  change (main_loop_body (with_secret s' world))
    with (main_loop_body world).
  cbn [with_secret on_get_caller_identity on_list_access_keys
         on_create_access_key on_delete_access_key on_open_append].
  repeat (exec_simpl; cbn [NewAccessKeyId SecretAccessKey];
          first [loop_blind_step | exec_step]).
  all: exec_simpl.
  all: unfold stdout_of in *; cbn [omap list_omap];
    rewrite ?omap_app; cbn [omap list_omap]; try congruence.
Qed.

End SecretFlow.

(** C8, as the code has it.  The new secret value is appended to the output
    file, on the line under its configured name, as soon as that file is
    open; it never shows in the job's own log, neither in the progress lines
    on standard output nor in the error message: with a secret store that
    answers without looking at the ciphertext and a sealing whose failure
    does not depend on the plaintext, the log is the same whatever secret
    the provider hands out. *)
Theorem secret_in_output_file_not_in_log world environ :
  (forall o t path,
      run world environ = (o, t) ->
      OpenAppend path (inr tt) ∈ t ->
      exists k,
        created_key t = Some (inr k) /\
        (path, default "secret_key_id" (environ !! "GITHUB_SECRET_KEY_NAME")
                 +:+ "=" +:+ SecretAccessKey k) ∈ disk_of t) /\
  (upload_blind world -> sealing_blind world ->
   forall s',
     log_of (run (with_secret s' world) environ)
     = log_of (run world environ)).
Proof.
  split.
  - intros o t path Hrun Hopen.
    destruct (output_file_lines _ _ _ _ _ Hrun Hopen) as (k & Hk & Hdisk).
    exists k. split; [exact Hk|]. rewrite Hdisk.
    rewrite !elem_of_cons. right. left. reflexivity.
  - intros Hupload Hseal s'. apply log_secret_blind; assumption.
Qed.

(** ** The claims on concrete runs *)

Example split_example : PyStr.split "," "a,,b," = ["a"; ""; "b"; ""].
Proof. reflexivity. Qed.

Example split_empty_example : PyStr.split "," "" = [""].
Proof. reflexivity. Qed.

Example targets_example :
  targets_of "org/repoA, acme ,x" = ["org/repoA"; "acme"; "x"].
Proof. reflexivity. Qed.

Example last_segment_example :
  last_segment "/" "arn:aws:iam::123456789012:user/svc-bot" = "svc-bot".
Proof. reflexivity. Qed.

(** One key before the run, two targets, everything succeeds: both targets
    get their three requests, the two lines go to the output file, the old
    key is deleted and the job exits 0. *)
Example happy_run :
  (run happy_world job_environ).1 = Exited 0 /\
  contacted (run happy_world job_environ).2 =
    ["https://api.github.com/repos/org/repoA/actions/secrets/public-key";
     "https://api.github.com/repos/org/repoA/actions/secrets/access_key_id";
     "https://api.github.com/repos/org/repoA/actions/secrets/secret_key_id";
     "https://api.github.com/repos/org/repoB/actions/secrets/public-key";
     "https://api.github.com/repos/org/repoB/actions/secrets/access_key_id";
     "https://api.github.com/repos/org/repoB/actions/secrets/secret_key_id"]
  /\
  disk_of (run happy_world job_environ).2 =
    [("/tmp/out", "access_key_id=AKIA_NEW");
     ("/tmp/out", "secret_key_id=s3cr3t")] /\
  last (run happy_world job_environ).2 =
    Some (IamDeleteAccessKey "svc-bot" "AKIA_OLD" (inr 200%Z)).
Proof. repeat split; vm_compute; reflexivity. Qed.

(** Two keys before the run: one line printed, exit 1. *)
Example two_keys_run :
  log_of (run two_keys_world job_environ) =
    (["There are already 2 keys for this user. Cannot rotate tokens."], []) /\
  exit_status (run two_keys_world job_environ).1 = 1%Z.
Proof. split; vm_compute; reflexivity. Qed.

(** The key of [org/repoB] cannot be fetched: [org/repoA] is updated, the
    fetch for [org/repoB] is the last request, the job fails. *)
Example missing_repoB_run :
  contacted (run repoB_missing_world job_environ).2 =
    ["https://api.github.com/repos/org/repoA/actions/secrets/public-key";
     "https://api.github.com/repos/org/repoA/actions/secrets/access_key_id";
     "https://api.github.com/repos/org/repoA/actions/secrets/secret_key_id";
     "https://api.github.com/repos/org/repoB/actions/secrets/public-key"] /\
  exit_status (run repoB_missing_world job_environ).1 = 1%Z /\
  Forall (fun e => is_delete e = false) (run repoB_missing_world job_environ).2.
Proof.
  split; [vm_compute; reflexivity|].
  split; [vm_compute; reflexivity|].
  vm_compute. repeat constructor.
Qed.

(** C7.  With an explicit identity override the job should use it and not
    query the introspection endpoint.  Here the override is set and STS is
    out of reach: the job queries STS all the same, before it looks the
    override up, and the run ends on that call with nothing else done. *)
Theorem override_still_queries_sts :
  override_environ !! "IAM_USERNAME" = Some "svc-bot" /\
  run sts_down_world override_environ =
    (Uncaught (LibraryError
       (LibError "EndpointConnectionError"
          "Could not connect to the endpoint URL")),
     [StsGetCallerIdentity
        (inl (LibError "EndpointConnectionError"
                "Could not connect to the endpoint URL"))]).
Proof. split; vm_compute; reflexivity. Qed.

(** C5 as stated fails: with the environment [prod] configured, the key fetch
    and the upload for [org/repoA] do not go to the endpoints with the
    environment segment before [/actions/secrets]. *)
Lemma environment_endpoint_counterexample :
  contacted (get_pub_key happy_world prod_environ "org/repoA" "ghp_token" 0).2
    <> [stated_environment_endpoint "org/repoA" "prod" "public-key"] /\
  contacted (upload_secret happy_world prod_environ "org/repoA"
               "access_key_id" "c" "k" "ghp_token" 0).2
    <> [stated_environment_endpoint "org/repoA" "prod" "access_key_id"].
Proof. split; vm_compute; discriminate. Qed.

(** C8 as stated fails: in a run where everything succeeds the new secret is
    in a line appended to the output file. *)
Lemma secret_reaches_disk : ~ secret_never_on_disk happy_world job_environ.
Proof.
  intros Hnever.
  specialize (Hnever minted "/tmp/out" "secret_key_id=s3cr3t").
  assert (Hdisk : disk_of (run happy_world job_environ).2 =
                  [("/tmp/out", "access_key_id=AKIA_NEW");
                   ("/tmp/out", "secret_key_id=s3cr3t")])
    by (vm_compute; reflexivity).
  rewrite Hdisk in Hnever.
  assert (Hfalse : PyStr.contains (SecretAccessKey minted)
                     "secret_key_id=s3cr3t" = false).
  { apply Hnever; [vm_compute; reflexivity|].
    rewrite !elem_of_cons. right. left. reflexivity. }
  vm_compute in Hfalse. discriminate Hfalse.
Qed.

Lemma guard_two_keys_witness :
  (run two_keys_world job_environ).1 = Exited 1 /\
  exit_status (run two_keys_world job_environ).1 = 1%Z /\
  last (run two_keys_world job_environ).2 = Some (Stdout
    "There are already 2 keys for this user. Cannot rotate tokens.") /\
  Forall (fun e => is_create e = false /\ is_delete e = false /\
                   is_propagation e = false /\ is_seal e = false /\
                   is_file e = false) (run two_keys_world job_environ).2.
Proof.
  apply (guard_two_keys two_keys_world job_environ _ _
           [active "AKIA_OLD"; active "AKIA_OLDER"]).
  - vm_compute; reflexivity.
  - vm_compute; reflexivity.
  - simpl; lia.
Defined.

Lemma unverified_key_not_propagated_witness :
  (run lagging_world job_environ).1 = Exited 1 /\
  exit_status (run lagging_world job_environ).1 = 1%Z /\
  last (run lagging_world job_environ).2
    = Some (Stdout "new keys failed to generate.") /\
  Forall (fun e => is_propagation e = false /\ is_seal e = false /\
                   is_delete e = false /\ is_file e = false)
    (run lagging_world job_environ).2.
Proof.
  apply (unverified_key_not_propagated lagging_world job_environ _ _
           minted [active "AKIA_OLD"]).
  - vm_compute; reflexivity.
  - vm_compute; reflexivity.
  - vm_compute; reflexivity.
  - simpl. rewrite elem_of_cons, elem_of_nil. intros [H|[]]. discriminate H.
Defined.

Lemma retire_previous_key_witness :
  retired (run happy_world job_environ).1 (run happy_world job_environ).2
    (active "AKIA_OLD").
Proof.
  pose proof (retire_previous_key happy_world job_environ
                (run happy_world job_environ).1
                (run happy_world job_environ).2) as H.
  destruct H as [H _]; [vm_compute; reflexivity|].
  apply (H (active "AKIA_OLD") "org/repoA, org/repoB");
    vm_compute; reflexivity.
Defined.

Lemma propagation_in_order_witness :
  in_order job_environ job_globals missing_repoB_body three_targets 9
    (for_each three_targets missing_repoB_body 9).1
    (for_each three_targets missing_repoB_body 9).2.
Proof.
  apply propagation_in_order. vm_compute; reflexivity.
Defined.

Lemma target_endpoints_witness :
  public_key_endpoint prod_environ "org/repoA" =
    "https://api.github.com/" +:+ endpoint_path "org/repoA" +:+ "/"
      +:+ "org/repoA" +:+ "/environments/" +:+ "prod"
      +:+ "/secrets/public-key" /\
  forall key_name,
    secret_endpoint prod_environ "org/repoA" key_name =
      "https://api.github.com/" +:+ endpoint_path "org/repoA" +:+ "/"
        +:+ "org/repoA" +:+ "/environments/" +:+ "prod"
        +:+ "/secrets/" +:+ key_name.
Proof.
  pose proof (target_endpoints happy_world prod_environ "org/repoA") as H.
  destruct H as (_ & _ & _ & Henv & _).
  apply (Henv "prod"); [vm_compute; reflexivity | discriminate].
Defined.

Lemma rejected_request_is_fatal_witness :
  ((upload_secret forbidden_world job_environ "org/repoA" "access_key_id"
      "c" "k" "ghp_token" 0).1 = Ret tt
   <-> status_code forbidden_response = 201%Z \/
       status_code forbidden_response = 204%Z) /\
  (last (run forbidden_world job_environ).2 = Some refused_upload /\
   (exists msg,
       (run forbidden_world job_environ).1 = Uncaught (Exception msg) /\
       carries msg forbidden_response) /\
   exit_status (run forbidden_world job_environ).1 = 1%Z).
Proof.
  pose proof (rejected_request_is_fatal forbidden_world job_environ) as H.
  destruct H as [Haccept Hfatal]. split.
  - apply Haccept. vm_compute; reflexivity.
  - apply Hfatal.
    + vm_compute; reflexivity.
    + apply list_elem_of_lookup. exists 12%nat. vm_compute; reflexivity.
    + vm_compute; reflexivity.
Defined.

Lemma secret_in_output_file_not_in_log_witness :
  (exists k,
      created_key (run happy_world job_environ).2 = Some (inr k) /\
      ("/tmp/out",
       default "secret_key_id" (job_environ !! "GITHUB_SECRET_KEY_NAME")
         +:+ "=" +:+ SecretAccessKey k)
        ∈ disk_of (run happy_world job_environ).2) /\
  log_of (run (with_secret "0ther" happy_world) job_environ)
  = log_of (run happy_world job_environ).
Proof.
  pose proof (secret_in_output_file_not_in_log happy_world job_environ) as H.
  destruct H as [Hfile Hlog]. split.
  - apply (Hfile (run happy_world job_environ).1).
    + vm_compute; reflexivity.
    + apply list_elem_of_lookup. exists 6%nat. vm_compute; reflexivity.
  - apply Hlog.
    + intros n url b b' auth _ _. reflexivity.
    + intros n pk p p'. reflexivity.
Defined.

Lemma deleted_key_existed_witness :
  (forall msg, (run happy_world job_environ).1 <> Uncaught (IndexError msg)) /\
  (forall user id r,
      IamDeleteAccessKey user id r ∈ (run happy_world job_environ).2 ->
      exists m,
        first_listing (run happy_world job_environ).2 = Some (inr [m]) /\
        id = AccessKeyId m).
Proof.
  apply (deleted_key_existed happy_world job_environ).
  vm_compute; reflexivity.
Defined.

Lemma one_key_per_target_witness :
  one_key job_environ job_globals "ghp_token" "AKIA_NEW" "s3cr3t" "org/repoA"
    (main_loop_body happy_world job_environ job_globals "ghp_token"
       "AKIA_NEW" "s3cr3t" "org/repoA" 9).1
    (main_loop_body happy_world job_environ job_globals "ghp_token"
       "AKIA_NEW" "s3cr3t" "org/repoA" 9).2.
Proof.
  apply (one_key_per_target happy_world job_environ job_globals "ghp_token"
           "AKIA_NEW" "s3cr3t" "org/repoA" 9).
  vm_compute; reflexivity.
Defined.

(** * Further properties of the script *)

Section Settings.
Variable world : World.
Variable environ : gmap string string.

(** X1.  A setting that the script reads with a subscript before it calls
    IAM ([AWS_ACCESS_KEY_ID], [AWS_SECRET_ACCESS_KEY],
    [PERSONAL_ACCESS_TOKEN], [OWNER_REPOSITORY]) and that is missing ends
    the run with failure before any IAM call, any request to a secret store
    and any write: the outcome is the [KeyError] of a missing setting, or
    the error of STS when that call, which comes before the last two
    lookups, raises. *)
Theorem missing_setting_stops_before_iam o t key :
  run world environ = (o, t) ->
  key ∈ early_settings ->
  environ !! key = None ->
  exit_status o = 1%Z /\
  Forall (fun e => is_iam e = false /\ is_propagation e = false /\
                   is_seal e = false /\ is_file e = false) t /\
  ((exists k, o = Uncaught (KeyError k) /\ k ∈ early_settings /\
              environ !! k = None) \/
   (exists e, o = Uncaught (LibraryError e) /\
              t = [StsGetCallerIdentity (inl e)])).
Proof.
  intros Hrun Hkey; revert Hrun. unfold early_settings in *.
  unfold_script. exec; intros [= <- <-] Hnone.
  all: split_in Hkey; subst; try congruence.
  all: split; [reflexivity|]; split; [repeat constructor|].
  all: first [right; eexists; split; reflexivity
             | left; eexists; split; [reflexivity|];
               split; [|eassumption]; rewrite !elem_of_cons; tauto].
Qed.

(** X2.  [GITHUB_OUTPUT] is read, and the file opened, only after the new
    key has been created and verified.  When the variable is missing or the
    file cannot be opened, the run fails with nothing written, no target
    contacted and the old key not deleted; if the key had been created and
    verified, the failure is that [KeyError] or that error of [open], right
    after the verification. *)
Theorem output_file_failure_strands_new_key o t :
  run world environ = (o, t) ->
  environ !! "GITHUB_OUTPUT" = None \/
  (exists path e, OpenAppend path (inl e) ∈ t) ->
  exit_status o = 1%Z /\
  Forall (fun e => is_propagation e = false /\ is_seal e = false /\
                   is_delete e = false) t /\
  disk_of t = [] /\
  (forall k l2,
      created_key t = Some (inr k) ->
      listing_after_create t = Some (inr l2) ->
      NewAccessKeyId k ∈ AccessKeyId <$> l2 ->
      (environ !! "GITHUB_OUTPUT" = None /\
       o = Uncaught (KeyError "GITHUB_OUTPUT") /\
       last t = Some (Stdout "new keys generated, proceeding")) \/
      (exists path e,
          environ !! "GITHUB_OUTPUT" = Some path /\
          o = Uncaught (LibraryError e) /\
          last t = Some (OpenAppend path (inl e)))).
Proof.
  intros Hrun; revert Hrun. unfold_script. exec; intros [= <- <-] Hbad.
  all: loop_facts.
  all: destruct Hbad as [Hbad|(path & e & Hbad)]; try congruence.
  all: try (split_in Hbad; try discriminate; try not_in_loop).
  all: split; [reflexivity|]; split; [repeat constructor|].
  all: split; [reflexivity|].
  all: intros k l2 Hk Hl Hin;
    cbn [created_key listing_after_create first_listing] in Hk, Hl;
    try discriminate.
  all: injection Hk as <-; injection Hl as <-; tidy; try contradiction.
  all: first [left; repeat split; reflexivity
             | right; eexists _, _; repeat split; reflexivity].
Qed.
End Settings.

Section IdentityAndRequests.
Variable world : World.
Variable environ : gmap string string.

(** X3.  Every call to IAM in a run (both listings, the creation, the
    deletion) is for the same user: the value of [IAM_USERNAME] when it is
    set, and else the last segment of the ARN that STS returned. *)
Theorem one_identity_for_all_iam_calls o t e user :
  run world environ = (o, t) ->
  e ∈ t ->
  iam_user e = Some user ->
  exists c rest,
    t = StsGetCallerIdentity (inr c) :: rest /\
    user = default (last_segment "/" (Arn c)) (environ !! "IAM_USERNAME").
Proof.
  intros Hrun; revert Hrun. unfold_script. exec; intros [= <- <-] Hin Huser.
  all: loop_facts.
  all: split_in Hin; subst; cbn [iam_user] in Huser; try discriminate Huser.
  all: try match goal with
         | Hall : Forall _ ?l, Hin : ?e ∈ ?l |- _ =>
             rewrite Forall_forall in Hall; apply Hall in Hin;
             destruct e; cbv in Hin; discriminate
         end.
  all: injection Huser as <-; eexists _, _; split; reflexivity.
Qed.

(** X4.  When the two AWS settings are present and STS answers, [who_am_i]
    makes that one call and returns the last segment of the ARN: what
    follows the last slash, and the whole ARN when it has no slash. *)
Theorem who_am_i_takes_last_segment n arn ak sk :
  environ !! "AWS_ACCESS_KEY_ID" = Some ak ->
  environ !! "AWS_SECRET_ACCESS_KEY" = Some sk ->
  on_get_caller_identity world n = inr {| Arn := arn |} ->
  who_am_i world environ n =
    (Ret (last_segment "/" arn),
     [StsGetCallerIdentity (inr {| Arn := arn |})]) /\
  (forall a b,
      arn = a +:+ String "/" b ->
      "/"%char ∉ String.list_ascii_of_string b ->
      last_segment "/" arn = b) /\
  ("/"%char ∉ String.list_ascii_of_string arn -> last_segment "/" arn = arn).
Proof.
  intros Hak Hsk Hans. split; [|split].
  - unfold who_am_i, boto3_client. unfold_prims.
    rewrite Hak, Hsk. exec_simpl. rewrite !Nat.add_0_r, Hans. exec_simpl.
    cbn [Arn]. rewrite getitem_split_last. reflexivity.
  - intros a b -> Hb. apply last_segment_after_sep, Hb.
  - intros Hno. unfold last_segment. rewrite (split_without_sep _ _ Hno).
    reflexivity.
Qed.
End IdentityAndRequests.

Section Messages.
Variable world : World.
Variable environ : gmap string string.
Variable g : Globals.
Variables github_token new_access_key new_secret_key : string.

Local Abbreviation body :=
  (main_loop_body world environ g github_token new_access_key new_secret_key).

Lemma body_rejected_message repos n r t e resp :
  body repos n = (r, t) ->
  e ∈ t ->
  rejected_response e = Some resp ->
  exists what,
    r = Halt (Uncaught (Exception
                 (failure_message what resp repos github_token))).
Proof.
  unfold_body. exec; intros [= <- <-] Hin Hrej.
  all: split_in Hin; subst; cbn [rejected_response] in Hrej;
    try discriminate Hrej.
  all: use_status; try discriminate Hrej.
  all: injection Hrej as <-; eexists; reflexivity.
Qed.

Lemma loop_rejected_message l n r t e resp :
  for_each l body n = (r, t) ->
  e ∈ t ->
  rejected_response e = Some resp ->
  exists what repos,
    repos ∈ l /\
    r = Halt (Uncaught (Exception
                 (failure_message what resp repos github_token))).
Proof.
  intros Hrun Hin Hrej.
  destruct (for_each_inv _ _ _ _ _ Hrun)
    as [[-> Hb]|(o & done & x & rest & t1 & t2 & -> & -> & -> & Hb & Hx)].
  - destruct (blocks_not_rejected _ _ _ _ _ _ _ _ _ _ _ Hb Hin Hrej).
  - apply elem_of_app in Hin as [Hin|Hin].
    + destruct (blocks_not_rejected _ _ _ _ _ _ _ _ _ _ _ Hb Hin Hrej).
    + destruct (body_rejected_message _ _ _ _ _ _ Hx Hin Hrej)
        as (what & [= ->]).
      exists what, x. split; [|reflexivity].
      rewrite elem_of_app, elem_of_cons. tauto.
Qed.

Lemma body_well_addressed repos n r t :
  body repos n = (r, t) -> Forall (well_addressed github_token) t.
Proof.
  unfold_body. exec; intros [= <- <-]; repeat constructor.
Qed.

Lemma loop_well_addressed l n r t :
  for_each l body n = (r, t) -> Forall (well_addressed github_token) t.
Proof. apply for_each_Forall. intros x. apply body_well_addressed. Qed.
End Messages.

Lemma failure_message_shows_token what r owner_repo github_token :
  exists a b,
    failure_message what r owner_repo github_token =
    a +:+ owner_repo +:+ " " +:+ github_token +:+ b.
Proof.
  exists (what +:+ " request failed, " +:+ spaces 26 +:+ "status code: "
            +:+ pretty (status_code r) +:+ ", " +:+ spaces 26 +:+ "body: "
            +:+ text r +:+ ", " +:+ spaces 26 +:+ "vars: "),
    (" " +:+ spaces 24).
  unfold failure_message. rewrite !append_assoc. reflexivity.
Qed.

Section RunMessages.
Variable world : World.
Variable environ : gmap string string.

(** X5.  The error message of a rejected request shows the personal access
    token: the last line of the traceback contains the target being
    processed followed by a space and the value of
    [PERSONAL_ACCESS_TOKEN]. *)
Theorem rejected_request_prints_token o t e resp github_token owner_repository :
  run world environ = (o, t) ->
  environ !! "PERSONAL_ACCESS_TOKEN" = Some github_token ->
  environ !! "OWNER_REPOSITORY" = Some owner_repository ->
  e ∈ t ->
  rejected_response e = Some resp ->
  exists repos a b,
    repos ∈ targets_of owner_repository /\
    stderr_of o =
      ["Exception: " +:+ a +:+ repos +:+ " " +:+ github_token +:+ b].
Proof.
  intros Hrun; revert Hrun. unfold_script.
  exec; intros [= <- <-] Htok Hors Hin Hrej.
  all: rewrite ?app_nil_r in *.
  all: split_in Hin; subst; try discriminate Hrej.
  all: injection Htok as <-; injection Hors as <-.
  all: match goal with
       | H : for_each _ _ _ = _, Hin : _ ∈ _ |- _ =>
           destruct (loop_rejected_message _ _ _ _ _ _ _ _ _ _ _ _ H Hin Hrej)
             as (what & repos & Hrepos & [= ->])
       end.
  match goal with
  | |- context [failure_message what resp repos ?tok] =>
      destruct (failure_message_shows_token what resp repos tok)
        as (pre & post & ->)
  end.
  exists repos, pre, post. split; [exact Hrepos | reflexivity].
Qed.

(** X6.  Every request of a run to a secret store, fetch or upload, carries
    the header [Bearer] followed by the value of [PERSONAL_ACCESS_TOKEN],
    and every upload asks for the visibility [private]. *)
Theorem requests_carry_token_and_private o t github_token :
  run world environ = (o, t) ->
  environ !! "PERSONAL_ACCESS_TOKEN" = Some github_token ->
  Forall (well_addressed github_token) t.
Proof.
  intros Hrun; revert Hrun. unfold_script. exec; intros [= <- <-] Htok.
  all: try discriminate Htok; try (injection Htok as <-).
  all: repeat match goal with
         | H : for_each _ _ _ = _ |- _ =>
             apply loop_well_addressed in H
         end.
  all: repeat (apply Forall_cons; split; [exact I|]);
    rewrite ?app_nil_r; try apply Forall_app;
    repeat split; try assumption; repeat constructor.
Qed.
End RunMessages.

Section Phases.
Variable world : World.
Variable environ : gmap string string.

(** X7.  The old key is deleted only when everything before succeeded: a
    run with a deletion call has had both uploads of every target accepted,
    the new key created and found in the re-list, and the deletion comes
    after all the requests to the secret stores. *)
Theorem delete_only_after_all_uploads o t user id r owner_repository :
  run world environ = (o, t) ->
  environ !! "OWNER_REPOSITORY" = Some owner_repository ->
  IamDeleteAccessKey user id r ∈ t ->
  good_uploads t = (2 * length (targets_of owner_repository))%nat /\
  last (List.filter (fun e => is_delete e || is_propagation e) t)
    = Some (IamDeleteAccessKey user id r) /\
  exists k l2,
    created_key t = Some (inr k) /\
    listing_after_create t = Some (inr l2) /\
    NewAccessKeyId k ∈ AccessKeyId <$> l2.
Proof.
  intros Hrun; revert Hrun. unfold_script. exec; intros [= <- <-] Hors Hin.
  all: try discriminate Hors; try (injection Hors as <-).
  all: loop_facts.
  all: split_in Hin; try discriminate; try not_in_loop.
  all: match goal with
       | H : IamDeleteAccessKey _ _ _ = IamDeleteAccessKey _ _ _ |- _ =>
           injection H as -> -> ->
       end.
  all: split;
    [repeat (rewrite good_uploads_cons || rewrite good_uploads_app);
     cbn [is_good_upload List.filter length Nat.add] in *;
     change (good_uploads []) with 0%nat; lia|].
  all: split;
    [cbn [List.filter is_delete is_propagation is_fetch is_upload orb];
     rewrite List.filter_app;
     cbn [List.filter is_delete is_propagation is_fetch is_upload orb];
     rewrite last_app; reflexivity|].
  all: eexists _, _; split; [reflexivity|]; split; [reflexivity|];
    tidy; assumption.
Qed.

(** X8.  The exit status of a run is 0 or 1, and it is 0 exactly when both
    uploads of every target were accepted and, further, either there was no
    key before the run or the deletion of the old key was answered with
    status 200. *)
Theorem exit_status_zero_iff_complete o t owner_repository :
  run world environ = (o, t) ->
  environ !! "OWNER_REPOSITORY" = Some owner_repository ->
  (exit_status o = 0%Z \/ exit_status o = 1%Z) /\
  (exit_status o = 0%Z <->
   good_uploads t = (2 * length (targets_of owner_repository))%nat /\
   (first_listing t = Some (inr []) \/
    exists user id, IamDeleteAccessKey user id (inr 200%Z) ∈ t)).
Proof.
  intros Hrun; revert Hrun. unfold_script. exec; intros [= <- <-] Hors.
  all: try discriminate Hors; try (injection Hors as <-).
  all: match goal with
       | |- context [targets_of ?s] => pose proof (targets_of_nonempty s) as Hne
       end.
  all: loop_facts.
  all: split; [cbn [exit_status]; tauto|].
  all: cbn [exit_status first_listing]; tidy.
  all: repeat (rewrite good_uploads_cons || rewrite good_uploads_app);
    cbn [is_good_upload List.filter length Nat.add] in *;
    change (good_uploads []) with 0%nat.
  all: split; [try discriminate | intros [Hcount Hdone]; try lia].
  all: try (destruct Hdone as [Hd|(user' & id' & Hd)]; [discriminate Hd|];
            split_in Hd; try discriminate; try not_in_loop;
            match goal with
            | H : IamDeleteAccessKey _ _ _ = IamDeleteAccessKey _ _ _ |- _ =>
                injection H as _ _ Hz; congruence
            end).
  all: intros _; split; [lia|].
  all: first
    [ right; subst; eexists _, _; rewrite !app_comm_cons;
      apply elem_of_app; right; apply elem_of_cons; left; reflexivity
    | left;
      match goal with
      | H : (length ?l <> 1)%nat |- _ =>
          destruct l as [|? [|? ?]]; cbn [length] in *;
          [reflexivity | congruence | lia]
      end ].
Qed.
End Phases.

Lemma count_events_app kind t1 t2 :
  count_events kind (t1 ++ t2)
  = (count_events kind t1 + count_events kind t2)%nat.
Proof.
  unfold count_events. rewrite List.filter_app, length_app. reflexivity.
Qed.

Lemma count_events_cons kind e t :
  count_events kind (e :: t)
  = ((if kind e then 1 else 0) + count_events kind t)%nat.
Proof. unfold count_events. simpl. destruct (kind e); reflexivity. Qed.

Lemma loop_event_counts t :
  Forall (fun e => is_loop_event e = true) t ->
  count_events is_sts t = 0%nat /\ count_events is_list t = 0%nat /\
  count_events is_create t = 0%nat /\ count_events is_delete t = 0%nat /\
  count_events is_open t = 0%nat.
Proof.
  induction 1 as [|e t He _ IH]; [repeat split|].
  rewrite !count_events_cons.
  destruct e; cbv in He; try discriminate He; exact IH.
Qed.

Lemma split_in_middle {A} (pre l suf : list A) (e : A) :
  e ∈ l ->
  exists la lb,
    l = la ++ e :: lb /\
    pre ++ l ++ suf = (pre ++ la) ++ e :: (lb ++ suf).
Proof.
  intros Hin. apply list_elem_of_split in Hin as (la & lb & ->).
  exists la, lb. split; [reflexivity|].
  rewrite <- !app_assoc. reflexivity.
Qed.

Section Order.
Variable world : World.
Variable environ : gmap string string.

(** X9.  The output file is written before any target is contacted: in a
    run with a request to a secret store, the two lines (access identifier,
    then secret, under their configured names) are appended to the file
    named by [GITHUB_OUTPUT] before that request, and nothing is written
    after. *)
Theorem output_file_written_before_propagation o t e :
  run world environ = (o, t) ->
  e ∈ t ->
  is_propagation e = true ->
  exists before after k path,
    t = before ++ e :: after /\
    created_key before = Some (inr k) /\
    environ !! "GITHUB_OUTPUT" = Some path /\
    disk_of before =
      [(path, access_key_name (module_globals environ)
                +:+ "=" +:+ NewAccessKeyId k);
       (path, secret_key_name (module_globals environ)
                +:+ "=" +:+ SecretAccessKey k)] /\
    disk_of after = [].
Proof.
  intros Hrun; revert Hrun. unfold_script. exec; intros [= <- <-] Hin Hprop.
  all: loop_facts.
  all: split_in Hin; subst;
    cbn [is_propagation is_fetch is_upload orb] in Hprop;
    try discriminate Hprop.
  all: rewrite ?app_nil_r;
    try match goal with
      | |- context [_ :: ?l] => is_var l; rewrite <- (app_nil_r l)
      end.
  all: match goal with
       | Hin : ?x ∈ ?l
         |- context [?e1 :: ?e2 :: ?e3 :: ?e4 :: ?e5 :: ?e6 :: ?e7 :: ?e8
                       :: ?e9 :: ?l ++ ?suf] =>
           destruct (split_in_middle [e1; e2; e3; e4; e5; e6; e7; e8; e9]
                       l suf x Hin) as (la & lb & -> & Heq);
           change (e1 :: e2 :: e3 :: e4 :: e5 :: e6 :: e7 :: e8 :: e9
                     :: (la ++ x :: lb) ++ suf)
             with ([e1; e2; e3; e4; e5; e6; e7; e8; e9]
                     ++ (la ++ x :: lb) ++ suf);
           rewrite Heq; clear Heq
       end.
  all: match goal with
       | H : Forall _ (_ ++ _ :: _) |- _ =>
           apply Forall_app in H as [Ha Hb];
           apply Forall_cons in Hb as [_ Hb];
           apply loop_event_quiet in Ha as [_ Ha];
           apply loop_event_quiet in Hb as [_ Hb]
       end.
  all: eexists _, _, _, _; split; [reflexivity|].
  all: split; [reflexivity|]; split; [reflexivity|].
  all: unfold disk_of in *; split;
    repeat first [rewrite omap_app | rewrite Ha | rewrite Hb
                 | progress cbn [omap list_omap app]]; reflexivity.
Qed.

(** X13.  A key is created only when the first listing showed fewer than
    two keys; and when it did, the job prints the count and calls
    [create_access_key], once. *)
Theorem create_iff_fewer_than_two_keys o t :
  run world environ = (o, t) ->
  (forall user r,
      IamCreateAccessKey user r ∈ t ->
      exists l, first_listing t = Some (inr l) /\ (length l < 2)%nat) /\
  (forall l,
      first_listing t = Some (inr l) -> (length l < 2)%nat ->
      count_events is_create t = 1%nat /\
      Stdout ("Validated <2 keys exist (current count: "
                +:+ pretty (length l) +:+ "), proceeding.") ∈ t).
Proof.
  intros Hrun; revert Hrun. unfold_script. exec; intros [= <- <-].
  all: loop_facts.
  all: split;
    [intros ? ? Hin; cbn [first_listing]; split_in Hin;
     try discriminate; try not_in_loop; tidy;
     eexists; (split; [reflexivity | cbn [length] in *; lia])
    |].
  all: intros l' Hfirst Hlen; cbn [first_listing] in Hfirst;
    try discriminate Hfirst; injection Hfirst as Hfirst; subst;
    tidy; try lia.
  all: repeat match goal with
         | H : Forall _ ?l |- _ =>
             apply loop_event_counts in H as (_ & _ & H & _)
         end.
  all: split;
    [repeat (rewrite count_events_cons || rewrite count_events_app);
     cbn [is_create]; change (count_events is_create []) with 0%nat; lia
    | rewrite !elem_of_cons; tauto].
Qed.

(** X14.  No IAM call is repeated: a run calls STS at most once, lists the
    keys at most twice (and at most once when no key is created), creates
    at most one key, deletes at most one, and opens the output file at most
    once. *)
Theorem each_iam_call_at_most_once o t :
  run world environ = (o, t) ->
  (count_events is_sts t <= 1)%nat /\
  (count_events is_list t <= 2)%nat /\
  (count_events is_create t <= 1)%nat /\
  (count_events is_delete t <= 1)%nat /\
  (count_events is_open t <= 1)%nat /\
  (count_events is_create t = 0%nat -> count_events is_list t <= 1)%nat.
Proof.
  intros Hrun; revert Hrun. unfold_script. exec; intros [= <- <-].
  all: loop_facts.
  all: repeat match goal with
         | H : Forall _ ?l |- _ =>
             apply loop_event_counts in H as (? & ? & ? & ? & ?)
         end.
  all: repeat (rewrite count_events_cons || rewrite count_events_app).
  all: cbn [is_sts is_list is_create is_delete is_open];
    change (count_events is_sts []) with 0%nat;
    change (count_events is_list []) with 0%nat;
    change (count_events is_create []) with 0%nat;
    change (count_events is_delete []) with 0%nat;
    change (count_events is_open []) with 0%nat; lia.
Qed.
End Order.

Section TargetEdges.
Variable world : World.
Variable environ : gmap string string.
Variable g : Globals.
Variables github_token new_access_key new_secret_key : string.

Local Abbreviation body :=
  (main_loop_body world environ g github_token new_access_key new_secret_key).

(** X10.  A target receives an upload only after its key was fetched with
    status 200 and a [key] field, and after both fields were sealed.  A
    sealing that raises ends the processing of the target with that error
    and without any upload; a fetch whose answer lacks [key] or [key_id]
    ends it with the fetch as the only event. *)
Theorem upload_needs_key_and_both_sealings repos n r t :
  body repos n = (r, t) ->
  (forall u b auth a,
      RequestsPut u b auth a ∈ t ->
      exists resp pk c1 c2,
        head t = Some (RequestsGet (public_key_endpoint environ repos)
                         (bearer github_token) (inr resp)) /\
        status_code resp = 200%Z /\
        fetched (inr resp) "key" = Some pk /\
        sealings t = [(new_access_key, c1); (new_secret_key, c2)]) /\
  (forall pk p e,
      SealedBoxEncrypt pk p (inl e) ∈ t ->
      r = Halt (Uncaught (LibraryError e)) /\
      Forall (fun e => is_upload e = false) t) /\
  (forall ans,
      head t = Some (RequestsGet (public_key_endpoint environ repos)
                       (bearer github_token) ans) ->
      fetched ans "key" = None \/ fetched ans "key_id" = None ->
      t = [RequestsGet (public_key_endpoint environ repos)
             (bearer github_token) ans] /\
      exists x, r = Halt (Uncaught x)).
Proof.
  unfold_body. exec; intros [= <- <-].
  all: split; [|split].
  all: lazymatch goal with
       | |- forall u b auth a, RequestsPut _ _ _ _ ∈ _ -> _ =>
           intros ? ? ? ? Hin; split_in Hin; try discriminate;
           eexists _, _, _, _; cbn [head];
           (split; [reflexivity|]); tidy; (split; [assumption|]);
           (split; [unfold fetched;
                    repeat match goal with H : _ = _ |- _ => rewrite H end;
                    reflexivity
                   | reflexivity])
       | |- forall pk p e, SealedBoxEncrypt _ _ _ ∈ _ -> _ =>
           intros ? ? ? Hin; split_in Hin; try discriminate;
           match goal with
           | H : SealedBoxEncrypt _ _ _ = SealedBoxEncrypt _ _ _ |- _ =>
               injection H as _ _ <-
           end; (split; [reflexivity | repeat constructor])
       | |- _ =>
           intros ans Hhead Hmiss; cbn [head] in Hhead;
           injection Hhead as <-;
           unfold fetched in Hmiss;
           repeat match goal with
             | H : _ = _ |- _ => rewrite H in Hmiss
             end;
           try (destruct Hmiss; discriminate);
           (split; [reflexivity | eexists; reflexivity])
       end.
Qed.

Lemma body_confirmations repos n r t :
  body repos n = (r, t) ->
  length (stdout_of t) = good_uploads t /\
  match r with
  | Ret _ => stdout_of t = target_lines environ g repos
  | Halt _ =>
      stdout_of t `prefix_of` [updated_line environ repos (access_key_name g)]
  end.
Proof.
  unfold_body. exec; intros [= <- <-].
  all: unfold stdout_of, good_uploads, target_lines;
    cbn [omap list_omap List.filter is_good_upload]; use_status.
  all: split; try reflexivity.
  all: eexists; reflexivity.
Qed.

Lemma blocks_confirmations l : forall n t,
  blocks body n l t ->
  length (stdout_of t) = good_uploads t /\
  stdout_of t = l ≫= target_lines environ g.
Proof.
  induction l as [|x l IH]; intros n t Hb; inversion Hb; subst;
    [split; reflexivity|].
  destruct (IH _ _ H4) as [Hlen Hout].
  destruct (body_confirmations _ _ _ _ H2) as [Hlenx Houtx].
  rewrite stdout_of_app, good_uploads_app, length_app, Hlen, Hlenx, Hout, Houtx.
  split; reflexivity.
Qed.

(** X11.  The loop prints one confirmation line per accepted upload and
    nothing else: when it completes, the two lines of every target in
    order; when it stops inside a target, the lines of the targets before
    and at most the line of the access-id secret of that target. *)
Theorem one_confirmation_per_accepted_upload targets n r t :
  for_each targets body n = (r, t) ->
  length (stdout_of t) = good_uploads t /\
  match r with
  | Ret _ => stdout_of t = targets ≫= target_lines environ g
  | Halt _ =>
      exists K x rest,
        targets !! K = Some x /\
        stdout_of t = (take K targets ≫= target_lines environ g) ++ rest /\
        rest `prefix_of` [updated_line environ x (access_key_name g)]
  end.
Proof.
  intros Hrun.
  destruct (for_each_inv _ _ _ _ _ Hrun)
    as [[-> Hb]|(o & done & x & rest & t1 & t2 & -> & -> & -> & Hb & Hx)].
  - apply (blocks_confirmations _ _ _ Hb).
  - destruct (blocks_confirmations _ _ _ Hb) as [Hlen Hout].
    destruct (body_confirmations _ _ _ _ Hx) as [Hlenx Houtx].
    rewrite stdout_of_app, good_uploads_app, length_app, Hlen, Hlenx.
    split; [reflexivity|].
    exists (length done), x, (stdout_of t2).
    rewrite take_app_length, Hout, lookup_app_r, Nat.sub_diag by lia.
    repeat split. exact Houtx.
Qed.
End TargetEdges.

Lemma split_length (sep : ascii) (s : string) :
  length (PyStr.split sep s) = S (count_char sep s).
Proof.
  induction s as [|a s IH]; [reflexivity|].
  cbn [PyStr.split count_char]. destruct (Ascii.eqb a sep).
  - cbn [length]. rewrite IH. reflexivity.
  - destruct (PyStr.split sep s) as [|w ws] eqn:E;
      [destruct (split_nonempty _ _ E)|].
    cbn [length] in *. lia.
Qed.

Lemma split_pieces_without_sep (sep : ascii) (s : string) :
  Forall (fun x => sep ∉ String.list_ascii_of_string x) (PyStr.split sep s).
Proof.
  induction s as [|a s IH]; cbn [PyStr.split].
  - repeat constructor. cbn. apply not_elem_of_nil.
  - destruct (Ascii.eqb_spec a sep) as [->|Hne].
    + constructor; [apply not_elem_of_nil | exact IH].
    + destruct (PyStr.split sep s) as [|w ws] eqn:E;
        [destruct (split_nonempty _ _ E)|].
      apply Forall_cons in IH as [Hw Hws]. constructor; [|exact Hws].
      cbn [String.list_ascii_of_string]. rewrite not_elem_of_cons.
      split; [congruence | exact Hw].
Qed.

Lemma lstrip_chars (s : string) (c : ascii) :
  c ∈ String.list_ascii_of_string (PyStr.lstrip s) ->
  c ∈ String.list_ascii_of_string s.
Proof.
  induction s as [|a s IH]; [auto|].
  cbn [PyStr.lstrip]. destruct (PyStr.isspace a); [|auto].
  intros H. cbn [String.list_ascii_of_string]. rewrite elem_of_cons. auto.
Qed.

Lemma rstrip_chars (s : string) (c : ascii) :
  c ∈ String.list_ascii_of_string (PyStr.rstrip s) ->
  c ∈ String.list_ascii_of_string s.
Proof.
  induction s as [|a s IH]; [auto|].
  cbn [PyStr.rstrip String.list_ascii_of_string].
  destruct (PyStr.rstrip s) as [|b r].
  - destruct (PyStr.isspace a); cbn [String.list_ascii_of_string];
      rewrite ?elem_of_cons, ?elem_of_nil; tauto.
  - cbn [String.list_ascii_of_string] in *. rewrite !elem_of_cons in *.
    intros [?|H]; [auto | right; apply IH, H].
Qed.

Lemma lstrip_head (s : string) (c : ascii) :
  head (String.list_ascii_of_string (PyStr.lstrip s)) = Some c ->
  PyStr.isspace c = false.
Proof.
  induction s as [|a s IH]; [discriminate|].
  cbn [PyStr.lstrip]. destruct (PyStr.isspace a) eqn:E; [exact IH|].
  intros [= <-]. exact E.
Qed.

Lemma rstrip_head (s : string) (c : ascii) :
  head (String.list_ascii_of_string (PyStr.rstrip s)) = Some c ->
  head (String.list_ascii_of_string s) = Some c.
Proof.
  destruct s as [|a s]; [discriminate|].
  cbn [PyStr.rstrip]. destruct (PyStr.rstrip s).
  - destruct (PyStr.isspace a); [discriminate | auto].
  - auto.
Qed.

Lemma rstrip_last (s : string) (c : ascii) :
  last (String.list_ascii_of_string (PyStr.rstrip s)) = Some c ->
  PyStr.isspace c = false.
Proof.
  induction s as [|a s IH]; [discriminate|].
  cbn [PyStr.rstrip]. destruct (PyStr.rstrip s) as [|b r].
  - destruct (PyStr.isspace a) eqn:E; [discriminate|].
    intros [= <-]. exact E.
  - cbn [String.list_ascii_of_string] in *. rewrite last_cons.
    destruct (last (b :: String.list_ascii_of_string r)) eqn:El.
    + intros [= <-]. apply IH. reflexivity.
    + apply last_None in El. discriminate El.
Qed.

(** X12.  [OWNER_REPOSITORY] gives one target more than it has commas, so
    at least one, and empty pieces count; no target contains a comma, and
    none starts or ends with white space. *)
Theorem targets_are_trimmed_pieces (owner_repository : string) :
  length (targets_of owner_repository)
    = S (count_char "," owner_repository) /\
  Forall (fun x =>
            (","%char ∉ String.list_ascii_of_string x) /\
            (forall c, head (String.list_ascii_of_string x) = Some c ->
                       PyStr.isspace c = false) /\
            (forall c, last (String.list_ascii_of_string x) = Some c ->
                       PyStr.isspace c = false))
    (targets_of owner_repository).
Proof.
  unfold targets_of. split; [rewrite length_fmap; apply split_length|].
  apply Forall_fmap.
  eapply Forall_impl; [apply split_pieces_without_sep|].
  intros x Hx. cbn. unfold PyStr.strip. split; [|split].
  - intros Hin. apply Hx, lstrip_chars, rstrip_chars, Hin.
  - intros c Hc. eapply lstrip_head, rstrip_head, Hc.
  - intros c. apply rstrip_last.
Qed.

(** ** The further properties on concrete runs *)

Lemma missing_setting_stops_before_iam_witness :
  exit_status (run happy_world no_token_environ).1 = 1%Z /\
  Forall (fun e => is_iam e = false /\ is_propagation e = false /\
                   is_seal e = false /\ is_file e = false)
    (run happy_world no_token_environ).2.
Proof.
  pose proof (missing_setting_stops_before_iam happy_world no_token_environ
                (run happy_world no_token_environ).1
                (run happy_world no_token_environ).2
                "PERSONAL_ACCESS_TOKEN") as H.
  destruct H as (Hexit & Hquiet & _).
  - vm_compute; reflexivity.
  - unfold early_settings. rewrite !elem_of_cons. tauto.
  - vm_compute; reflexivity.
  - split; assumption.
Defined.

Lemma output_file_failure_strands_new_key_witness :
  exit_status (run happy_world no_output_environ).1 = 1%Z /\
  disk_of (run happy_world no_output_environ).2 = [] /\
  (run happy_world no_output_environ).1 = Uncaught (KeyError "GITHUB_OUTPUT").
Proof.
  pose proof (output_file_failure_strands_new_key happy_world
                no_output_environ
                (run happy_world no_output_environ).1
                (run happy_world no_output_environ).2) as H.
  destruct H as (Hexit & _ & Hdisk & Hkey).
  - vm_compute; reflexivity.
  - left. vm_compute; reflexivity.
  - split; [exact Hexit|]. split; [exact Hdisk|].
    destruct (Hkey minted [active "AKIA_OLD"; active "AKIA_NEW"])
      as [(_ & Ho & _)|(path & e & Hpath & _)].
    + vm_compute; reflexivity.
    + vm_compute; reflexivity.
    + simpl. rewrite !elem_of_cons. tauto.
    + exact Ho.
    + vm_compute in Hpath. discriminate Hpath.
Defined.

Lemma one_identity_for_all_iam_calls_witness :
  exists c rest,
    (run happy_world override_environ).2
      = StsGetCallerIdentity (inr c) :: rest /\
    "svc-bot" =
      default (last_segment "/" (Arn c)) (override_environ !! "IAM_USERNAME").
Proof.
  apply (one_identity_for_all_iam_calls happy_world override_environ
           (run happy_world override_environ).1
           (run happy_world override_environ).2
           (IamCreateAccessKey "svc-bot" (inr minted))).
  - vm_compute; reflexivity.
  - apply list_elem_of_lookup. exists 3%nat. vm_compute; reflexivity.
  - reflexivity.
Defined.

Lemma who_am_i_takes_last_segment_witness :
  who_am_i happy_world job_environ 0 =
    (Ret (last_segment "/" "arn:aws:iam::123456789012:user/svc-bot"),
     [StsGetCallerIdentity
        (inr {| Arn := "arn:aws:iam::123456789012:user/svc-bot" |})]) /\
  last_segment "/" "arn:aws:iam::123456789012:user/svc-bot" = "svc-bot".
Proof.
  destruct (who_am_i_takes_last_segment happy_world job_environ 0
              "arn:aws:iam::123456789012:user/svc-bot" "AKIA_JOB" "jobsecret")
    as (Hcall & Hslash & _).
  - vm_compute; reflexivity.
  - vm_compute; reflexivity.
  - reflexivity.
  - split; [exact Hcall|].
    apply (Hslash "arn:aws:iam::123456789012:user" "svc-bot");
      [reflexivity|].
    cbn [String.list_ascii_of_string]. rewrite !not_elem_of_cons.
    repeat split; try discriminate. apply not_elem_of_nil.
Defined.

Lemma rejected_request_prints_token_witness :
  exists repos a b,
    repos ∈ targets_of "org/repoA, org/repoB" /\
    stderr_of (run forbidden_world job_environ).1 =
      ["Exception: " +:+ a +:+ repos +:+ " " +:+ "ghp_token" +:+ b].
Proof.
  apply (rejected_request_prints_token forbidden_world job_environ
           (run forbidden_world job_environ).1
           (run forbidden_world job_environ).2
           refused_upload forbidden_response).
  - vm_compute; reflexivity.
  - vm_compute; reflexivity.
  - vm_compute; reflexivity.
  - apply list_elem_of_lookup. exists 12%nat. vm_compute; reflexivity.
  - vm_compute; reflexivity.
Defined.

Lemma requests_carry_token_and_private_witness :
  Forall (well_addressed "ghp_token") (run happy_world job_environ).2.
Proof.
  apply (requests_carry_token_and_private happy_world job_environ
           (run happy_world job_environ).1).
  - vm_compute; reflexivity.
  - vm_compute; reflexivity.
Defined.

Lemma delete_only_after_all_uploads_witness :
  good_uploads (run happy_world job_environ).2
    = (2 * length (targets_of "org/repoA, org/repoB"))%nat /\
  last (List.filter (fun e => is_delete e || is_propagation e)
          (run happy_world job_environ).2)
    = Some (IamDeleteAccessKey "svc-bot" "AKIA_OLD" (inr 200%Z)) /\
  exists k l2,
    created_key (run happy_world job_environ).2 = Some (inr k) /\
    listing_after_create (run happy_world job_environ).2 = Some (inr l2) /\
    NewAccessKeyId k ∈ AccessKeyId <$> l2.
Proof.
  apply (delete_only_after_all_uploads happy_world job_environ
           (run happy_world job_environ).1).
  - vm_compute; reflexivity.
  - vm_compute; reflexivity.
  - apply list_elem_of_lookup. exists 23%nat. vm_compute; reflexivity.
Defined.

Lemma exit_status_zero_iff_complete_witness :
  (exit_status (run delete_fails_world job_environ).1 = 0%Z \/
   exit_status (run delete_fails_world job_environ).1 = 1%Z) /\
  (exit_status (run delete_fails_world job_environ).1 = 0%Z <->
   good_uploads (run delete_fails_world job_environ).2
     = (2 * length (targets_of "org/repoA, org/repoB"))%nat /\
   (first_listing (run delete_fails_world job_environ).2 = Some (inr []) \/
    exists user id,
      IamDeleteAccessKey user id (inr 200%Z)
        ∈ (run delete_fails_world job_environ).2)).
Proof.
  apply (exit_status_zero_iff_complete delete_fails_world job_environ).
  - vm_compute; reflexivity.
  - vm_compute; reflexivity.
Defined.

Lemma output_file_written_before_propagation_witness :
  exists before after k path,
    (run happy_world job_environ).2 = before ++ first_fetch :: after /\
    created_key before = Some (inr k) /\
    job_environ !! "GITHUB_OUTPUT" = Some path /\
    disk_of before =
      [(path, access_key_name (module_globals job_environ)
                +:+ "=" +:+ NewAccessKeyId k);
       (path, secret_key_name (module_globals job_environ)
                +:+ "=" +:+ SecretAccessKey k)] /\
    disk_of after = [].
Proof.
  apply (output_file_written_before_propagation happy_world job_environ
           (run happy_world job_environ).1).
  - vm_compute; reflexivity.
  - apply list_elem_of_lookup. exists 9%nat. vm_compute; reflexivity.
  - reflexivity.
Defined.

Lemma upload_needs_key_and_both_sealings_witness :
  (keyless_body "org/repoA" 9).2 =
    [RequestsGet (public_key_endpoint job_environ "org/repoA")
       (bearer "ghp_token") keyless_answer] /\
  exists x, (keyless_body "org/repoA" 9).1 = Halt (Uncaught x).
Proof.
  pose proof (upload_needs_key_and_both_sealings keyless_world job_environ
                job_globals "ghp_token" "AKIA_NEW" "s3cr3t" "org/repoA" 9
                (keyless_body "org/repoA" 9).1
                (keyless_body "org/repoA" 9).2) as H.
  destruct H as (_ & _ & Hmiss); [vm_compute; reflexivity|].
  apply (Hmiss keyless_answer).
  - vm_compute; reflexivity.
  - left. vm_compute; reflexivity.
Defined.

Lemma one_confirmation_per_accepted_upload_witness :
  length (stdout_of (for_each three_targets happy_body 9).2)
    = good_uploads (for_each three_targets happy_body 9).2 /\
  stdout_of (for_each three_targets happy_body 9).2
    = three_targets ≫= target_lines job_environ job_globals.
Proof.
  apply (one_confirmation_per_accepted_upload happy_world job_environ
           job_globals "ghp_token" "AKIA_NEW" "s3cr3t" three_targets 9
           (Ret tt)).
  vm_compute; reflexivity.
Defined.

Lemma create_iff_fewer_than_two_keys_witness :
  count_events is_create (run happy_world job_environ).2 = 1%nat /\
  Stdout "Validated <2 keys exist (current count: 1), proceeding."
    ∈ (run happy_world job_environ).2.
Proof.
  pose proof (create_iff_fewer_than_two_keys happy_world job_environ
                (run happy_world job_environ).1
                (run happy_world job_environ).2) as H.
  destruct H as [_ H]; [vm_compute; reflexivity|].
  apply (H [active "AKIA_OLD"]); [vm_compute; reflexivity | simpl; lia].
Defined.

Lemma each_iam_call_at_most_once_witness :
  (count_events is_sts (run happy_world job_environ).2 <= 1)%nat /\
  (count_events is_list (run happy_world job_environ).2 <= 2)%nat /\
  (count_events is_create (run happy_world job_environ).2 <= 1)%nat /\
  (count_events is_delete (run happy_world job_environ).2 <= 1)%nat /\
  (count_events is_open (run happy_world job_environ).2 <= 1)%nat /\
  (count_events is_create (run happy_world job_environ).2 = 0%nat ->
   count_events is_list (run happy_world job_environ).2 <= 1)%nat.
Proof.
  apply (each_iam_call_at_most_once happy_world job_environ
           (run happy_world job_environ).1).
  vm_compute; reflexivity.
Defined.

Lemma run_propagation_in_order_witness :
  requests_in_order job_environ (module_globals job_environ)
    (targets_of "org/repoA, org/repoB")
    (contacted (run repoB_missing_world job_environ).2)
    (uploaded (run repoB_missing_world job_environ).2).
Proof.
  apply (run_propagation_in_order repoB_missing_world job_environ
           (run repoB_missing_world job_environ).1).
  - vm_compute; reflexivity.
  - vm_compute; reflexivity.
Defined.
